(** * arq command-line supervisor: [arq/cli.py]

    A shallow embedding of the two functions of [arq/cli.py]:

    - [watch_reload], the coroutine that owns a worker, listens to the
      file watcher and re-runs the worker on every batch of changes;
    - [cli], the click command that selects health check, plain run or
      watch mode and fans the selected entry point out over processes.

    The coroutine runs on one event loop; its effects on the collaborators
    (worker, watcher, event loop, standard output) are threaded through an
    explicit [World], which also records every call in a trace.  Whatever
    the collaborators decide on their own (which files change, which
    signals arrive, which calls raise) is an input of the model. *)

From Stdlib Require Import ZArith Lia List Bool.
From stdpp Require Import base option list gmap strings.
Import ListNotations.

Local Open Scope string_scope.
Local Open Scope list_scope.

(** ** Values *)

(** [signal.Signals], an [IntEnum]; the members a worker process meets. *)
Inductive Signals :=
| SIGHUP | SIGINT | SIGQUIT | SIGKILL | SIGUSR1 | SIGUSR2 | SIGTERM.

#[global] Instance Signals_eq_dec : EqDecision Signals.
Proof. solve_decision. Defined.

(** Objects the command obtains from its collaborators and only passes on:
    what [import_string] resolves a dotted path to, and the dictionary
    [default_log_config] builds. *)
Inductive PyObj :=
| Imported (locator : string)
| DefaultLogConfig (verbose : bool).

#[global] Instance PyObj_eq_dec : EqDecision PyObj.
Proof. solve_decision. Defined.

(** Exceptions. [ImportError] is the one [watch_reload] raises itself;
    [Failure] stands for whatever a collaborator raises. *)
Inductive Exn :=
| ImportError (msg : string)
| Failure (what : string).

#[global] Instance Exn_eq_dec : EqDecision Exn.
Proof. solve_decision. Defined.

(** [watchfiles.Change] and the set of changes one iteration of [awatch]
    yields. *)
Inductive Change := added | modified | deleted.

Definition ChangeBatch := list (Change * string).

(** A worker object is referred to by its position in the heap. *)
Definition Handle := nat.

(** ** The worker object *)

(** Modelled from the spec: [arq/worker.py] is not part of the sources at
    hand.  A worker is created from its settings, is running once its
    cooperative run has been scheduled, is stopped by a signal and closed by
    [close]; [handle_sig] ends the run and then calls the [on_stop] hook. *)
Inductive Lifecycle := Created | Running | Stopped | Closed.

#[global] Instance Lifecycle_eq_dec : EqDecision Lifecycle.
Proof. solve_decision. Defined.

(** The only hook the command installs: the closure [worker_on_stop] of
    [watch_reload], bound to that coroutine's [stop_event]. *)
Inductive Hook := worker_on_stop_closure.

Record Worker := mkWorker {
  w_settings : PyObj;
  w_state : Lifecycle;
  w_on_stop : option Hook;
}.

(** ** Calls and observations *)

Inductive Call :=
| ImportAwatch                         (* from watchfiles import awatch *)
| CreateWorker (settings : PyObj)      (* create_worker(worker_settings) *)
| SetOnStop (h : Handle)               (* worker.on_stop = worker_on_stop *)
| CreateTask (h : Handle)              (* loop.create_task(worker.async_run()) *)
| Print (msg : string)
| HandleSig (h : Handle) (s : Signals) (* worker.handle_sig(s) *)
| Close (h : Handle).                  (* await worker.close() *)

Inductive Event :=
| Did (c : Call)                 (* the call returned *)
| Threw (c : Call) (e : Exn)     (* the call raised [e] *)
| Yielded (b : ChangeBatch)      (* awatch handed a batch to the loop *)
| Delivered (s : Signals)        (* the process received a signal *)
| WatcherThrew (e : Exn).        (* awatch raised [e] *)

(** One entry of the trace: what happened, and right after it which
    handles were running and whether the stop event was set. *)
Record Obs := mkObs {
  obs_event : Event;
  obs_running : list Handle;
  obs_stop : bool;
}.

(** What happens while the coroutine is suspended in [awatch].  A signal
    that reaches the process while a reload awaits the close of the worker,
    line 89, is not among the inputs of this model. *)
Inductive Occurrence :=
| FilesChanged (b : ChangeBatch)
| SignalArrives (s : Signals)
| WatcherFails (e : Exn).

(** ** The world of one process *)

Record World := mkWorld {
  watchfiles_installed : bool;
  stop_event : bool;                 (* asyncio.Event: is_set() *)
  heap : list Worker;
  faults : list (option Exn);        (* how the next collaborator calls end *)
  trace : list Obs;
}.

Definition set_stop_event (b : bool) (w : World) : World :=
  mkWorld (watchfiles_installed w) b (heap w) (faults w) (trace w).

Definition set_heap (hp : list Worker) (w : World) : World :=
  mkWorld (watchfiles_installed w) (stop_event w) hp (faults w) (trace w).

Definition set_faults (fs : list (option Exn)) (w : World) : World :=
  mkWorld (watchfiles_installed w) (stop_event w) (heap w) fs (trace w).

Definition is_running (wk : Worker) : bool :=
  bool_decide (w_state wk = Running).

Fixpoint running_from (i : Handle) (hp : list Worker) : list Handle :=
  match hp with
  | [] => []
  | wk :: hp' =>
      if is_running wk then i :: running_from (S i) hp'
      else running_from (S i) hp'
  end.

Definition running (hp : list Worker) : list Handle := running_from 0 hp.

Definition log (e : Event) (w : World) : World :=
  mkWorld (watchfiles_installed w) (stop_event w) (heap w) (faults w)
          (trace w ++ [mkObs e (running (heap w)) (stop_event w)]).

Definition events (w : World) : list Event := map obs_event (trace w).

(** ** Results and the monad of the coroutine *)

(** A computation returns, raises, or stays suspended for ever. *)
Inductive Result (A : Type) :=
| Ok (a : A)
| Raise (e : Exn)
| Forever.

Arguments Ok {A} a.
Arguments Raise {A} e.
Arguments Forever {A}.

Definition M (A : Type) : Type := World -> Result A * World.

Definition ret {A} (a : A) : M A := fun w => (Ok a, w).

Definition bind {A B} (m : M A) (k : A -> M B) : M B := fun w =>
  match m w with
  | (Ok a, w') => k a w'
  | (Raise e, w') => (Raise e, w')
  | (Forever, w') => (Forever, w')
  end.

Notation "'let*' x ':=' m 'in' k" := (bind m (fun x => k))
  (at level 10, x name, m at level 100, k at level 200).
Notation "m1 ;; m2" := (bind m1 (fun _ => m2))
  (at level 100, m2 at level 200, right associativity).

(** [try: body finally: fin].  The [finally] clause runs when the body
    returns or raises; what it raises replaces the body's result.  A body
    that never resumes never reaches it. *)
Definition try_finally {A} (body : M A) (fin : M unit) : M A := fun w =>
  match body w with
  | (Forever, w') => (Forever, w')
  | (r, w') =>
      match fin w' with
      | (Ok _, w'') => (r, w'')
      | (Raise e, w'') => (Raise e, w'')
      | (Forever, w'') => (Forever, w'')
      end
  end.

(** A call to a collaborator: the next entry of [faults] says whether it
    raises; when it does not, [act] is its effect and its value. *)
Definition next_fault (w : World) : option Exn :=
  match faults w with
  | Some e :: _ => Some e
  | _ => None
  end.

Definition ext {A} (c : Call) (act : World -> A * World) : M A := fun w =>
  let w0 := set_faults (tail (faults w)) w in
  match next_fault w with
  | Some e => (Raise e, log (Threw c e) w0)
  | None => let (a, w') := act w0 in (Ok a, log (Did c) w')
  end.

(** ** The stop hook, [cli.py] lines 78-80 *)

Definition worker_on_stop (s : Signals) (w : World) : World :=
  if bool_decide (s <> SIGUSR1) then set_stop_event true w else w.

Definition run_hook (k : Hook) (s : Signals) (w : World) : World :=
  match k with
  | worker_on_stop_closure => worker_on_stop s w
  end.

(** ** Worker operations (modelled from the spec, see [Lifecycle]) *)

Definition set_state (st : Lifecycle) (wk : Worker) : Worker :=
  mkWorker (w_settings wk) st (w_on_stop wk).

Definition set_hook (k : Hook) (wk : Worker) : Worker :=
  mkWorker (w_settings wk) (w_state wk) (Some k).

Definition stop_running (wk : Worker) : Worker :=
  match w_state wk with
  | Running => set_state Stopped wk
  | _ => wk
  end.

(** Modelled from the spec: the worker method [handle_sig], which stops the
    run and passes the signal to the hook when one is installed. *)
Definition worker_handle_sig (h : Handle) (s : Signals) (w : World) : World :=
  let w' := set_heap (alter stop_running h (heap w)) w in
  match heap w !! h with
  | Some wk =>
      match w_on_stop wk with
      | Some k => run_hook k s w'
      | None => w'
      end
  | None => w'
  end.

Definition create_worker (settings : PyObj) : M Handle :=
  ext (CreateWorker settings) (fun w =>
    (length (heap w), set_heap (heap w ++ [mkWorker settings Created None]) w)).

Definition set_on_stop (h : Handle) (k : Hook) : M unit :=
  ext (SetOnStop h) (fun w => (tt, set_heap (alter (set_hook k) h (heap w)) w)).

Definition create_task_async_run (h : Handle) : M unit :=
  ext (CreateTask h) (fun w =>
    (tt, set_heap (alter (set_state Running) h (heap w)) w)).

Definition handle_sig (h : Handle) (s : Signals) : M unit :=
  ext (HandleSig h s) (fun w => (tt, worker_handle_sig h s w)).

Definition close (h : Handle) : M unit :=
  ext (Close h) (fun w =>
    (tt, set_heap (alter (set_state Closed) h (heap w)) w)).

Definition print (msg : string) : M unit :=
  ext (Print msg) (fun w => (tt, w)).

(** A signal sent to the process reaches every worker: each one installed
    its [handle_sig] as the handler. *)
Definition deliver (s : Signals) (w : World) : World :=
  log (Delivered s)
      (fold_left (fun acc h => worker_handle_sig h s acc)
                 (seq 0 (length (heap w))) w).

(** ** [watch_reload], [cli.py] lines 69-92 *)

Definition watchfiles_missing : Exn :=
  ImportError "watchfiles not installed, use `pip install watchfiles`".

Definition import_awatch : M unit := fun w =>
  if watchfiles_installed w then (Ok tt, log (Did ImportAwatch) w)
  else (Raise watchfiles_missing, log (Threw ImportAwatch watchfiles_missing) w).

(** [stop_event = asyncio.Event()]: a fresh event is not set. *)
Definition new_stop_event : M unit := fun w => (Ok tt, set_stop_event false w).

Definition reload_notice : string :=
  String (Ascii.ascii_of_nat 10) "files changed, reloading arq worker...".

(** The body of the loop, lines 87-90. *)
Definition reload (worker : Handle) : M unit :=
  print reload_notice ;;
  handle_sig worker SIGUSR1 ;;
  close worker ;;
  create_task_async_run worker.

(** [async for _ in awatch(path, stop_event=stop_event): body].
    Modelled from the spec for the watcher, which is an external library:
    it ends once the event is set, hands over the batches in the order the
    changes occur, and waits for ever when nothing more occurs. *)
Fixpoint async_for_awatch (occs : list Occurrence) (body : M unit) : M unit :=
  fun w =>
    if stop_event w then (Ok tt, w)
    else
      match occs with
      | [] => (Forever, w)
      | SignalArrives s :: rest => async_for_awatch rest body (deliver s w)
      | WatcherFails e :: _ => (Raise e, log (WatcherThrew e) w)
      | FilesChanged b :: rest =>
          match body (log (Yielded b) w) with
          | (Ok _, w') => async_for_awatch rest body w'
          | (Raise e, w') => (Raise e, w')
          | (Forever, w') => (Forever, w')
          end
      end.

(** [occs] is what occurs while the coroutine waits in [awatch(path, ...)].
    [asyncio.get_running_loop()] has no effect of its own; the loop shows in
    [create_task_async_run]. *)
Definition watch_reload (path : string) (worker_settings : PyObj)
    (occs : list Occurrence) : M unit :=
  import_awatch ;;
  new_stop_event ;;
  let* worker := create_worker worker_settings in
  try_finally
    (set_on_stop worker worker_on_stop_closure ;;
     create_task_async_run worker ;;
     async_for_awatch occs (reload worker))
    (close worker).

(** The process as [asyncio.run] finds it. *)
Definition fresh_world (installed : bool) (fs : list (option Exn)) : World :=
  mkWorld installed false [] fs [].


(** ** [cli], [cli.py] lines 36-66 *)

(** The parameters click binds.  [burst] is the tri-state
    [--burst/--no-burst]; [watch] and [custom_log_dict] are [None] when the
    option is absent. *)
Record Args := mkArgs {
  worker_settings : string;
  burst : option bool;
  check : bool;
  watch : option string;
  workers : Z;
  verbose : bool;
  custom_log_dict : option string;
}.

(** Truth value of an optional string: [None] and the empty string are
    false. *)
Definition truthy (o : option string) : bool :=
  match o with
  | Some s => negb (String.eqb s "")
  | None => false
  end.

(** The coroutine object [watch_reload(watch, worker_settings_)]. *)
Inductive Coroutine := WatchReload (path : string) (settings : PyObj).

(** What a process is started on, or what the caller runs itself. *)
Inductive Target :=
| RunWorker (settings : PyObj) (kwargs : gmap string bool)
| AsyncioRun (co : Coroutine).

Inductive CliEvent :=
| SysPathAppend
| ImportString (locator : string)
| DictConfig (cfg : PyObj)
| CheckHealth (settings : PyObj)
| ProcessStart (t : Target)      (* Process(target=..., args=...).start() *)
| Invoke (t : Target).           (* the same call made by the caller *)

(** How a process ends. *)
Inductive Outcome :=
| Returned
| Exited (code : Z)
| Raised (e : Exn)
| NeverReturns.

(** [multiprocessing]'s start method: with [fork] the child inherits the
    target and its arguments; with [spawn] and [forkserver] they are
    pickled for the child. *)
Inductive StartMethod := Fork | Spawn | ForkServer.

(** What one process finds around it: which dotted paths resolve, what the
    health check and a blocking run of the worker come to, the inputs of
    [watch_reload], what [logging.config.dictConfig] raises on a
    configuration it rejects, and the start method of [multiprocessing]. *)
Record Env := mkFullEnv {
  importable : string -> bool;
  check_health : PyObj -> Z;
  run_worker : PyObj -> gmap string bool -> Outcome;
  installed : bool;
  occurrences : list Occurrence;
  call_faults : list (option Exn);
  dict_config_error : PyObj -> option Exn;
  start_method : StartMethod;
}.

(** An environment in which every logging configuration is accepted and
    processes are forked. *)
Definition mkEnv (imp : string -> bool) (hc : PyObj -> Z)
    (rw : PyObj -> gmap string bool -> Outcome) (inst : bool)
    (occs : list Occurrence) (fs : list (option Exn)) : Env :=
  mkFullEnv imp hc rw inst occs fs (fun _ => None) Fork.

Definition with_installed (b : bool) (env : Env) : Env :=
  mkFullEnv (importable env) (check_health env) (run_worker env) b
            (occurrences env) (call_faults env) (dict_config_error env)
            (start_method env).

Definition with_start_method (m : StartMethod) (env : Env) : Env :=
  mkFullEnv (importable env) (check_health env) (run_worker env)
            (installed env) (occurrences env) (call_faults env)
            (dict_config_error env) m.

Record CliRun := mkRun {
  cli_log : list CliEvent;
  cli_outcome : Outcome;
  cli_world : option World;   (* the world of the coroutine the caller ran *)
}.

Definition import_string (env : Env) (locator : string) : option PyObj :=
  if importable env locator then Some (Imported locator) else None.

Definition outcome_of (r : Result unit) : Outcome :=
  match r with
  | Ok _ => Returned
  | Raise e => Raised e
  | Forever => NeverReturns
  end.

(** What running a target amounts to in a process with environment [env]. *)
Definition run_target (t : Target) (env : Env) : Outcome * option World :=
  match t with
  | RunWorker settings kwargs => (run_worker env settings kwargs, None)
  | AsyncioRun (WatchReload path settings) =>
      let (r, w) := watch_reload path settings (occurrences env)
                      (fresh_world (installed env) (call_faults env)) in
      (outcome_of r, Some w)
  end.

(** What [pickle] raises on a coroutine object. *)
Definition cannot_pickle : Exn :=
  Failure "TypeError: cannot pickle 'coroutine' object".

(** [Process(target=..., args=..., kwargs=...).start()]: outside [fork] the
    arguments are pickled, which a coroutine object does not allow; a
    function with the settings and the keyword arguments goes through. *)
Definition process_start (env : Env) (t : Target) : option Exn :=
  match t with
  | AsyncioRun _ =>
      match start_method env with
      | Fork => None
      | _ => Some cannot_pickle
      end
  | RunWorker _ _ => None
  end.

(** [for _ in range(n): Process(...).start()]: the events of the starts
    that went through, and the error of the start that raised, if one did. *)
Fixpoint start_loop (env : Env) (t : Target) (n : nat)
  : list CliEvent * option Exn :=
  match n with
  | O => ([], None)
  | S n' =>
      match process_start env t with
      | Some e => ([], Some e)
      | None =>
          let (l, failed) := start_loop env t n' in (ProcessStart t :: l, failed)
      end
  end.

Definition start_processes (env : Env) (n : Z) (t : Target)
  : list CliEvent * option Exn :=
  start_loop env t (Z.to_nat n).

(** Lines 46-49, the logging configuration. *)
Definition resolve_log_config (a : Args) (env : Env)
  : list CliEvent * option PyObj :=
  if truthy (custom_log_dict a) then
    let d := default "" (custom_log_dict a) in
    ([ImportString d], import_string env d)
  else ([], Some (DefaultLogConfig (verbose a))).

(** Line 55. *)
Definition bind_kwargs (a : Args) : gmap string bool :=
  match burst a with
  | None => ∅
  | Some b => {[ "burst" := b ]}
  end.

Definition import_failed (locator : string) : Exn :=
  Failure (String.append "import_string " locator).

(** The log lists what [cli] does in order; [exit(n)] ends the run with
    [Exited n]; an import, [dictConfig] or a process start that raises ends
    it with [Raised]; otherwise the run ends as the entry point invoked by
    the caller ends. *)
Definition cli (a : Args) (env : Env) : CliRun :=
  let l0 := [SysPathAppend; ImportString (worker_settings a)] in
  match import_string env (worker_settings a) with
  | None => mkRun l0 (Raised (import_failed (worker_settings a))) None
  | Some worker_settings_ =>
      let (l1, cfg) := resolve_log_config a env in
      match cfg with
      | None =>
          mkRun (l0 ++ l1)
                (Raised (import_failed (default "" (custom_log_dict a)))) None
      | Some log_config =>
          match dict_config_error env log_config with
          | Some e => mkRun (l0 ++ l1) (Raised e) None
          | None =>
              let l2 := l0 ++ l1 ++ [DictConfig log_config] in
              if check a then
                mkRun (l2 ++ [CheckHealth worker_settings_])
                      (Exited (check_health env worker_settings_)) None
              else
                let kwargs := bind_kwargs a in
                if truthy (watch a) then
                  let coroutine :=
                    WatchReload (default "" (watch a)) worker_settings_ in
                  let (l3, failed) :=
                    if (1 <? workers a)%Z
                    then start_processes env (workers a - 1)
                                         (AsyncioRun coroutine)
                    else ([], None) in
                  match failed with
                  | Some e => mkRun (l2 ++ l3) (Raised e) None
                  | None =>
                      let (o, w) := run_target (AsyncioRun coroutine) env in
                      mkRun (l2 ++ l3 ++ [Invoke (AsyncioRun coroutine)]) o w
                  end
                else
                  let (l3, failed) :=
                    if (1 <? workers a)%Z
                    then start_processes env (workers a - 1)
                                         (RunWorker worker_settings_ kwargs)
                    else ([], None) in
                  match failed with
                  | Some e => mkRun (l2 ++ l3) (Raised e) None
                  | None =>
                      let (o, w) :=
                        run_target (RunWorker worker_settings_ kwargs) env in
                      mkRun (l2 ++ l3
                                ++ [Invoke (RunWorker worker_settings_ kwargs)])
                            o w
                  end
          end
      end
  end.

(** ** Reading a run of [cli] *)

(** The paths [cli] imports resolve. *)
Definition resolves (a : Args) (env : Env) : bool :=
  importable env (worker_settings a) &&
  (if truthy (custom_log_dict a)
   then importable env (default "" (custom_log_dict a))
   else true).

(** The settings object and what [cli] does before it selects a mode. *)
Definition settings_of (a : Args) : PyObj := Imported (worker_settings a).

Definition preamble (a : Args) : list CliEvent :=
  [SysPathAppend; ImportString (worker_settings a)] ++
  (if truthy (custom_log_dict a)
   then [ImportString (default "" (custom_log_dict a));
         DictConfig (Imported (default "" (custom_log_dict a)))]
   else [DictConfig (DefaultLogConfig (verbose a))]).

(** The three modes and the one the parameters select. *)
Inductive Mode := HealthCheck | PlainRun | WatchMode.

Definition mode (a : Args) : Mode :=
  if check a then HealthCheck
  else if truthy (watch a) then WatchMode else PlainRun.

(** The entry point the launcher is given outside health-check mode. *)
Definition entry_point (a : Args) : Target :=
  if truthy (watch a)
  then AsyncioRun (WatchReload (default "" (watch a)) (settings_of a))
  else RunWorker (settings_of a) (bind_kwargs a).

Definition target_settings (t : Target) : PyObj :=
  match t with
  | RunWorker settings _ => settings
  | AsyncioRun (WatchReload _ settings) => settings
  end.

Fixpoint spawned (l : list CliEvent) : list Target :=
  match l with
  | [] => []
  | ProcessStart t :: l' => t :: spawned l'
  | _ :: l' => spawned l'
  end.

Fixpoint invoked (l : list CliEvent) : list Target :=
  match l with
  | [] => []
  | Invoke t :: l' => t :: invoked l'
  | _ :: l' => invoked l'
  end.

Fixpoint health_checks (l : list CliEvent) : list PyObj :=
  match l with
  | [] => []
  | CheckHealth settings :: l' => settings :: health_checks l'
  | _ :: l' => health_checks l'
  end.

(** A started process runs its target in an environment of its own. *)
Definition children (r : CliRun) (envs : list Env)
  : list (Outcome * option World) :=
  zip_with run_target (spawned (cli_log r)) envs.

(** The processes the launcher starts for a worker count [n]. *)
Definition all_started (n : Z) (t : Target) : list CliEvent :=
  map (fun _ => ProcessStart t) (seq 0 (Z.to_nat n)).

Definition fan_out (n : Z) (t : Target) : list CliEvent :=
  if (1 <? n)%Z then all_started (n - 1) t else [].

(** ** Reading a run of [watch_reload] *)

(** The calls of one reload, lines 87-90, when none of them raises. *)
Definition reload_cycle (h : Handle) : list Event :=
  [Did (Print reload_notice); Did (HandleSig h SIGUSR1);
   Did (Close h); Did (CreateTask h)].

(** Settings of the workers created, handles whose close returned, handles
    whose run was scheduled, batches handed to the loop. *)
Definition created (evs : list Event) : list PyObj :=
  omap (fun e => match e with Did (CreateWorker st) => Some st | _ => None end)
       evs.

Definition closed (evs : list Event) : list Handle :=
  omap (fun e => match e with Did (Close h) => Some h | _ => None end) evs.

Definition started (evs : list Event) : list Handle :=
  omap (fun e => match e with Did (CreateTask h) => Some h | _ => None end) evs.

Definition yields (evs : list Event) : list ChangeBatch :=
  omap (fun e => match e with Yielded b => Some b | _ => None end) evs.

(** Batches among what occurs while the coroutine waits. *)
Definition batches (occs : list Occurrence) : list ChangeBatch :=
  omap (fun o => match o with FilesChanged b => Some b | _ => None end) occs.

(** Some handle has its run scheduled after its close returned. *)
Definition rerun_after_close (evs : list Event) : Prop :=
  exists h pre mid post,
    evs = pre ++ Did (Close h) :: mid ++ Did (CreateTask h) :: post.

(** What C1 says of a run over [n] batches: [n + 1] workers are created,
    the [n + 1] closes are of distinct handles, and no handle is run again
    once closed. *)
Definition fresh_handle_per_reload (evs : list Event) (n : nat) : Prop :=
  length (created evs) = (n + 1)%nat /\
  length (closed evs) = (n + 1)%nat /\ NoDup (closed evs) /\
  ~ rerun_after_close evs.

(** The run of [watch_reload] in a fresh process. *)
Definition run_watch_reload (path : string) (settings : PyObj)
    (occs : list Occurrence) (inst : bool) (fs : list (option Exn))
  : Result unit * World :=
  watch_reload path settings occs (fresh_world inst fs).

(** What the trace gains by one batch when the worker is running. *)
Definition cycle_obs (b : ChangeBatch) : list Obs :=
  [mkObs (Yielded b) [0%nat] false;
   mkObs (Did (Print reload_notice)) [0%nat] false;
   mkObs (Did (HandleSig 0 SIGUSR1)) [] false;
   mkObs (Did (Close 0)) [] false;
   mkObs (Did (CreateTask 0)) [0%nat] false].

(** The world of a fresh process once the first run of the worker is
    scheduled, when watchfiles is installed and no call has raised. *)
Definition started_world (settings : PyObj) : World :=
  mkWorld true false [mkWorker settings Running (Some worker_on_stop_closure)]
    []
    [mkObs (Did ImportAwatch) [] false;
     mkObs (Did (CreateWorker settings)) [] false;
     mkObs (Did (SetOnStop 0)) [] false;
     mkObs (Did (CreateTask 0)) [0%nat] false].

(** The calls up to the first scheduled run. *)
Definition prologue (settings : PyObj) : list Event :=
  [Did ImportAwatch; Did (CreateWorker settings); Did (SetOnStop 0);
   Did (CreateTask 0)].

(** ** Invariants of the coroutine *)

(** A property of the world that survives whatever the calls of the
    coroutine do to it, as long as each logged event is [allowed]: consuming
    a fault, logging, updating one worker in place, setting the stop event. *)
Record stable (allowed : Event -> Prop) (I : World -> Prop) : Prop := mkStable {
  st_faults : forall fs w, I w -> I (set_faults fs w);
  st_log : forall e w, allowed e -> I w -> I (log e w);
  st_alter : forall f h w, I w -> I (set_heap (alter f h (heap w)) w);
  st_stop : forall w, I w -> I (set_stop_event true w);
}.

(** The computation [m] maintains [I]. *)
Definition keeps {A} (I : World -> Prop) (m : M A) : Prop :=
  forall w, I w -> I (m w).2.

(** At most one worker exists, and no observation showed two running. *)
Definition one_handle (w : World) : Prop :=
  (length (heap w) <= 1)%nat /\
  Forall (fun o => (length (obs_running o) <= 1)%nat) (trace w).


(** The world of a fresh process, watchfiles installed, once the worker is
    created. *)
Definition created_world (settings : PyObj) (fs : list (option Exn)) : World :=
  mkWorld true false [mkWorker settings Created None] fs
    [mkObs (Did ImportAwatch) [] false;
     mkObs (Did (CreateWorker settings)) [] false].

(** Lines 84-90, the body of the [try] statement for the worker [h], and
    lines 83-92, the statement itself. *)
Definition try_body (h : Handle) (occs : list Occurrence) : M unit :=
  set_on_stop h worker_on_stop_closure ;;
  create_task_async_run h ;;
  async_for_awatch occs (reload h).

Definition guarded_loop (h : Handle) (occs : list Occurrence) : M unit :=
  try_finally (try_body h occs) (close h).

Definition any_event (e : Event) : Prop := True.

(** How one call to a collaborator shows: the stop event is as before, and
    the call either returned or raised, with the matching event logged. *)
Definition call_step (c : Call) (m : M unit) : Prop :=
  forall w,
    stop_event (m w).2 = stop_event w /\
    (((m w).1 = Ok tt /\ events (m w).2 = events w ++ [Did c]) \/
     (exists e, (m w).1 = Raise e /\ events (m w).2 = events w ++ [Threw c e])).

(** Every batch handed to the loop is directly followed by the calls of a
    complete reload: what holds whenever the loop is about to wait. *)
Definition reloads_complete (h : Handle) (evs : list Event) : Prop :=
  forall pre b rest,
    evs = pre ++ Yielded b :: rest -> exists rest', rest = reload_cycle h ++ rest'.

(** The same for every batch but the last one handed over. *)
Definition reloads_in_turn (h : Handle) (evs : list Event) : Prop :=
  forall pre b rest,
    evs = pre ++ Yielded b :: rest -> yields rest <> [] ->
    exists rest', rest = reload_cycle h ++ rest'.



(** The calls of a reload in which one call raises [e]. *)
Definition broken_cycle (h : Handle) (e : Exn) : list (list Event) :=
  [[Threw (Print reload_notice) e];
   [Did (Print reload_notice); Threw (HandleSig h SIGUSR1) e];
   [Did (Print reload_notice); Did (HandleSig h SIGUSR1); Threw (Close h) e];
   [Did (Print reload_notice); Did (HandleSig h SIGUSR1); Did (Close h);
    Threw (CreateTask h) e]].

(** ** The claims on the close of the handle and on the end of the loop,
       as they are worded *)








(** ** Further readings of a run of [cli] *)

Definition dict_configs (l : list CliEvent) : list PyObj :=
  omap (fun e => match e with DictConfig cfg => Some cfg | _ => None end) l.

(** The events of [cli] that act on the worker, on processes or on the
    health check. *)
Definition is_mode_action (e : CliEvent) : bool :=
  match e with
  | CheckHealth _ | ProcessStart _ | Invoke _ => true
  | _ => false
  end.

(** The logging configuration lines 46-49 select. *)
Definition chosen_log_config (a : Args) : PyObj :=
  if truthy (custom_log_dict a)
  then Imported (default "" (custom_log_dict a))
  else DefaultLogConfig (verbose a).

(** [cli] gets past line 50: the imports resolve and [dictConfig] accepts
    the configuration. *)
Definition configured (a : Args) (env : Env) : bool :=
  resolves a env &&
  bool_decide (dict_config_error env (chosen_log_config a) = None).

(** No process start raises: none is attempted, or the entry point can be
    handed to a process under the start method. *)
Definition launches (a : Args) (env : Env) : bool :=
  (workers a <=? 1)%Z ||
  bool_decide (process_start env (entry_point a) = None).

Definition with_burst (b : option bool) (a : Args) : Args :=
  mkArgs (worker_settings a) b (check a) (watch a) (workers a) (verbose a)
         (custom_log_dict a).

Definition with_verbose (v : bool) (a : Args) : Args :=
  mkArgs (worker_settings a) (burst a) (check a) (watch a) (workers a) v
         (custom_log_dict a).

(** ** Further readings of a run of [watch_reload] *)

(** How the [finally] clause ends a run whose [try] body raised [e], when
    [fs] are the faults left: the event of the close and the error that
    propagates. *)
Definition close_after (fs : list (option Exn)) (e : Exn) : Event * Exn :=
  match fs with
  | Some e' :: _ => (Threw (Close 0) e', e')
  | _ => (Did (Close 0), e)
  end.

(** The calls the coroutine makes once its worker exists: the notice, and
    calls on handle 0, with [SIGUSR1] as the only signal sent. *)
Definition own_call (c : Call) : Prop :=
  match c with
  | ImportAwatch | CreateWorker _ => False
  | Print msg => msg = reload_notice
  | SetOnStop h | CreateTask h | Close h => h = 0%nat
  | HandleSig h s => h = 0%nat /\ s = SIGUSR1
  end.

Definition own_event (e : Event) : Prop :=
  match e with
  | Did c | Threw c _ => own_call c
  | _ => True
  end.

(** The events of the run so far are those of the creation of the worker
    followed by events of the coroutine's own. *)
Definition after_creation (st : PyObj) (w : World) : Prop :=
  exists rest,
    events w = [Did ImportAwatch; Did (CreateWorker st)] ++ rest /\
    Forall own_event rest.

(** The stop event is set only after a signal other than [SIGUSR1] was
    delivered. *)
Definition stopped_by_signal (w : World) : Prop :=
  stop_event w = true ->
  exists s, s <> SIGUSR1 /\ In (Delivered s) (events w).

(** Forgetting what a batch holds. *)
Definition forget_event (e : Event) : Event :=
  match e with
  | Yielded _ => Yielded []
  | _ => e
  end.

Definition forget_obs (o : Obs) : Obs :=
  mkObs (forget_event (obs_event o)) (obs_running o) (obs_stop o).

Definition forget_world (w : World) : World :=
  mkWorld (watchfiles_installed w) (stop_event w) (heap w) (faults w)
          (map forget_obs (trace w)).

Definition forget_occ (o : Occurrence) : Occurrence :=
  match o with
  | FilesChanged _ => FilesChanged []
  | _ => o
  end.

(** Whatever the batches in the trace hold, [m'] does what [m] does. *)
Definition forgets {A} (m' m : M A) : Prop :=
  forall w, m' (forget_world w) = ((m w).1, forget_world (m w).2).

Definition commutes {A} (m : M A) : Prop := forgets m m.

(** The error of an event that records a raise, and the error of the last
    such event of a trace. *)
Definition error_of (e : Event) : option Exn :=
  match e with
  | Threw _ x | WatcherThrew x => Some x
  | _ => None
  end.

Fixpoint last_error (evs : list Event) : option Exn :=
  match evs with
  | [] => None
  | e :: rest =>
      match last_error rest with
      | Some x => Some x
      | None => error_of e
      end
  end.

(** The result and the trace agree on the error: a raise carries the error
    of the last event that raised, and otherwise nothing raised. *)
Definition error_matches (r : Result unit) (evs : list Event) : Prop :=
  match r with
  | Raise x => last_error evs = Some x
  | _ => last_error evs = None
  end.

(** * Proofs *)

(** ** Lemmas on [cli] *)

Lemma spawned_app l1 l2 : spawned (l1 ++ l2) = spawned l1 ++ spawned l2.
Proof.
  induction l1 as [|e l1 IH]; [reflexivity|].
  destruct e; simpl; rewrite IH; reflexivity.
Qed.

Lemma invoked_app l1 l2 : invoked (l1 ++ l2) = invoked l1 ++ invoked l2.
Proof.
  induction l1 as [|e l1 IH]; [reflexivity|].
  destruct e; simpl; rewrite IH; reflexivity.
Qed.

Lemma health_checks_app l1 l2 :
  health_checks (l1 ++ l2) = health_checks l1 ++ health_checks l2.
Proof.
  induction l1 as [|e l1 IH]; [reflexivity|].
  destruct e; simpl; rewrite IH; reflexivity.
Qed.

Lemma preamble_quiet a :
  spawned (preamble a) = [] /\ invoked (preamble a) = [] /\
  health_checks (preamble a) = [].
Proof. unfold preamble. destruct (truthy (custom_log_dict a)); auto. Qed.

Lemma all_started_repeat n t :
  all_started n t = repeat (ProcessStart t) (Z.to_nat n).
Proof.
  unfold all_started. generalize 0%nat.
  induction (Z.to_nat n) as [|k IH]; intros i; simpl; [reflexivity|].
  f_equal. apply IH.
Qed.

Lemma spawned_repeat t k : spawned (repeat (ProcessStart t) k) = repeat t k.
Proof. induction k as [|k IH]; simpl; congruence. Qed.

Lemma invoked_repeat t k : invoked (repeat (ProcessStart t) k) = [].
Proof. induction k as [|k IH]; simpl; congruence. Qed.

Lemma health_checks_repeat t k :
  health_checks (repeat (ProcessStart t) k) = [].
Proof. induction k as [|k IH]; simpl; congruence. Qed.

Lemma fan_out_repeat n t :
  fan_out n t = repeat (ProcessStart t) (Z.to_nat (n - 1)).
Proof.
  unfold fan_out. destruct (Z.ltb_spec 1 n) as [H|H].
  - apply all_started_repeat.
  - replace (Z.to_nat (n - 1)) with 0%nat by lia. reflexivity.
Qed.

Lemma start_loop_ok env t n :
  process_start env t = None ->
  start_loop env t n = (repeat (ProcessStart t) n, None).
Proof.
  intros H. induction n as [|n IH]; simpl; [reflexivity|].
  rewrite H, IH. reflexivity.
Qed.

Lemma start_loop_raises env t n e :
  process_start env t = Some e -> start_loop env t (S n) = ([], Some e).
Proof. intros H. simpl. rewrite H. reflexivity. Qed.

(** The starts of line 59 or 64 when none raises. *)
Lemma starts_ok env n t :
  ((n <=? 1)%Z || bool_decide (process_start env t = None)) = true ->
  (if (1 <? n)%Z then start_processes env (n - 1) t else ([], None)) =
  (fan_out n t, None).
Proof.
  intros H. unfold fan_out, start_processes.
  destruct (Z.ltb_spec 1 n) as [Hn|Hn]; [|reflexivity].
  destruct (Z.leb_spec n 1) as [Hn'|_]; [lia|]. simpl in H.
  apply bool_decide_eq_true_1 in H.
  rewrite (start_loop_ok _ _ _ H), all_started_repeat. reflexivity.
Qed.

Lemma configured_inv a env :
  configured a env = true ->
  resolves a env = true /\ dict_config_error env (chosen_log_config a) = None.
Proof.
  unfold configured. intros H. apply andb_prop in H as [H1 H2].
  apply bool_decide_eq_true_1 in H2. auto.
Qed.

(** [cli] up to line 50 once it is configured. *)
Lemma cli_preamble a env :
  configured a env = true ->
  import_string env (worker_settings a) = Some (settings_of a) /\
  resolve_log_config a env =
    (if truthy (custom_log_dict a)
     then [ImportString (default "" (custom_log_dict a))] else [],
     Some (chosen_log_config a)) /\
  dict_config_error env (chosen_log_config a) = None /\
  preamble a =
    [SysPathAppend; ImportString (worker_settings a)] ++
    (if truthy (custom_log_dict a)
     then [ImportString (default "" (custom_log_dict a))] else []) ++
    [DictConfig (chosen_log_config a)].
Proof.
  intros H. apply configured_inv in H as [Hres Hd].
  unfold resolves in Hres. apply andb_prop in Hres as [H1 H2].
  unfold import_string, resolve_log_config, chosen_log_config, preamble,
    settings_of in *.
  rewrite H1. destruct (truthy (custom_log_dict a)).
  - unfold import_string. rewrite H2. auto.
  - auto.
Qed.

(** [cli] with [--check], once it is configured. *)
Lemma cli_configured_check a env :
  configured a env = true -> check a = true ->
  cli a env =
    mkRun (preamble a ++ [CheckHealth (settings_of a)])
          (Exited (check_health env (settings_of a))) None.
Proof.
  intros Hc Hk. destruct (cli_preamble a env Hc) as (H1 & H2 & H3 & H4).
  unfold cli. rewrite H1, H2, H3, Hk, H4, <- !app_assoc. reflexivity.
Qed.

(** [cli] without [--check], once it is configured and no start raises. *)
Lemma cli_configured_run a env :
  configured a env = true -> launches a env = true -> check a = false ->
  cli a env =
    mkRun (preamble a ++ fan_out (workers a) (entry_point a)
                    ++ [Invoke (entry_point a)])
          (run_target (entry_point a) env).1
          (run_target (entry_point a) env).2.
Proof.
  intros Hc Hl Hk. destruct (cli_preamble a env Hc) as (H1 & H2 & H3 & H4).
  unfold launches, entry_point in Hl.
  unfold cli. rewrite H1, H2, H3, Hk, H4. unfold entry_point.
  destruct (truthy (watch a)).
  - rewrite (starts_ok _ _ _ Hl).
    destruct (run_target _ env) as [o w]. simpl. rewrite <- !app_assoc.
    reflexivity.
  - rewrite (starts_ok _ _ _ Hl).
    destruct (run_target _ env) as [o w]. simpl. rewrite <- !app_assoc.
    reflexivity.
Qed.

(** Whatever the imports and [dictConfig] do, a run with [--check] starts
    no process and invokes no entry point. *)
Lemma cli_check_quiet a env :
  check a = true ->
  spawned (cli_log (cli a env)) = [] /\ invoked (cli_log (cli a env)) = [] /\
  cli_world (cli a env) = None /\
  (length (health_checks (cli_log (cli a env))) <= 1)%nat.
Proof.
  intros Hc. unfold cli, resolve_log_config, import_string. rewrite Hc.
  destruct (importable env (worker_settings a)); simpl; [|auto].
  destruct (truthy (custom_log_dict a)); simpl.
  - destruct (importable env _); simpl; [|auto].
    destruct (dict_config_error env _); simpl; auto.
  - destruct (dict_config_error env _); simpl; auto.
Qed.

(** ** The stop hook *)

(** C3. The stop hook leaves the world as it is on [SIGUSR1], the reload
    signal, however often it is delivered; on every other signal it sets the
    stop event and changes nothing else, and delivering the signal again
    leaves the world as the first delivery left it. *)
Theorem worker_on_stop_demux (s : Signals) (w : World) (n : nat) :
  (s = SIGUSR1 -> Nat.iter n (worker_on_stop s) w = w) /\
  (s <> SIGUSR1 ->
     worker_on_stop s w = set_stop_event true w /\
     stop_event (worker_on_stop s w) = true /\
     heap (worker_on_stop s w) = heap w /\
     trace (worker_on_stop s w) = trace w /\
     faults (worker_on_stop s w) = faults w /\
     Nat.iter (S n) (worker_on_stop s) w = worker_on_stop s w).
Proof.
  split.
  - intros ->. induction n as [|n IH]; simpl; [reflexivity|].
    rewrite IH. reflexivity.
  - intros Hs. unfold worker_on_stop.
    rewrite (bool_decide_eq_true_2 _ Hs).
    repeat split.
    induction n as [|n IH]; simpl in *; [reflexivity|].
    rewrite IH. reflexivity.
Qed.

Lemma worker_on_stop_demux_witness :
  stop_event (worker_on_stop SIGTERM (fresh_world true [])) = true /\
  Nat.iter 3 (worker_on_stop SIGUSR1) (fresh_world true []) =
    fresh_world true [].
Proof.
  split.
  - apply (proj2 (worker_on_stop_demux SIGTERM (fresh_world true []) 1)).
    discriminate.
  - apply (proj1 (worker_on_stop_demux SIGUSR1 (fresh_world true []) 3)).
    reflexivity.
Defined.

(** ** The launcher and the selection of the mode *)

(** When [cli] is configured, does not have [--check] and no process start
    raises, it starts [k - 1] processes on the entry point and then invokes
    the same entry point itself. *)
Lemma fan_out_count (a : Args) (env : Env) :
  configured a env = true -> launches a env = true ->
  check a = false -> (1 <= workers a)%Z ->
  let r := cli a env in
  let t := entry_point a in
  cli_log r =
    preamble a ++ repeat (ProcessStart t) (Z.to_nat (workers a - 1))
               ++ [Invoke t] /\
  spawned (cli_log r) = repeat t (Z.to_nat (workers a) - 1) /\
  invoked (cli_log r) = [t] /\
  length (spawned (cli_log r) ++ invoked (cli_log r)) = Z.to_nat (workers a) /\
  Forall (fun t' => t' = t /\ target_settings t' = settings_of a)
         (spawned (cli_log r) ++ invoked (cli_log r)) /\
  (cli_outcome r, cli_world r) = run_target t env.
Proof.
  intros Hcf Hl Hc Hk r t. subst r.
  rewrite (cli_configured_run _ _ Hcf Hl Hc). fold t.
  cbn [cli_log cli_outcome cli_world].
  rewrite fan_out_repeat.
  replace (Z.to_nat (workers a - 1)) with (Z.to_nat (workers a) - 1)%nat by lia.
  destruct (preamble_quiet a) as (Hs & Hi & _).
  rewrite !spawned_app, !invoked_app, Hs, Hi, spawned_repeat, invoked_repeat.
  simpl. rewrite app_nil_r.
  repeat split.
  - rewrite length_app, repeat_length. simpl. lia.
  - apply Forall_app. split.
    + apply Forall_forall. intros x Hx. apply list_elem_of_In, repeat_spec in Hx.
      subst x. split; [reflexivity|]. unfold t, entry_point.
      destruct (truthy (watch a)); reflexivity.
    + repeat constructor. unfold t, entry_point.
      destruct (truthy (watch a)); reflexivity.
  - destruct (run_target t env); reflexivity.
Qed.

(** C2. In watch mode the fan-out works under the [fork] start method
    only.  [cli] hands the one coroutine object of line 57 to every
    [Process]; under [spawn] or [forkserver] the first start of line 60,
    reached for every worker count of 2 or more, raises on pickling it: no
    process is started, the caller never runs the entry point, and [cli]
    ends with that error.  (In plain-run mode, lines 63-66, the target is a
    function with its arguments and the starts go through.) *)
Theorem watch_fan_out_breaks_outside_fork (a : Args) (env : Env) :
  configured a env = true -> mode a = WatchMode ->
  (2 <= workers a)%Z -> start_method env <> Fork ->
  let r := cli a env in
  spawned (cli_log r) = [] /\ invoked (cli_log r) = [] /\
  cli_log r = preamble a /\
  cli_outcome r = Raised cannot_pickle /\ cli_world r = None.
Proof.
  intros Hcf Hm Hk Hsm r. subst r. unfold mode in Hm.
  destruct (check a) eqn:Hc; [discriminate|].
  destruct (truthy (watch a)) eqn:Hw; [|discriminate].
  destruct (cli_preamble a env Hcf) as (H1 & H2 & H3 & H4).
  destruct (preamble_quiet a) as (Hs & Hi & _).
  unfold cli. rewrite H1, H2, H3, Hc, Hw.
  destruct (Z.ltb_spec 1 (workers a)) as [_|Hn]; [|lia].
  unfold start_processes.
  destruct (Z.to_nat (workers a - 1)) as [|n] eqn:Hz; [lia|].
  rewrite (start_loop_raises env _ n cannot_pickle).
  - cbn [cli_log cli_outcome cli_world]. rewrite app_nil_r, <- H4.
    auto.
  - unfold process_start. destruct (start_method env); congruence.
Qed.

Lemma watch_fan_out_breaks_outside_fork_witness :
  let a := mkArgs "app.Settings" None false (Some "src") 2 false None in
  let env := with_start_method Spawn
               (mkEnv (fun _ => true) (fun _ => 0%Z) (fun _ _ => Returned)
                      true [SignalArrives SIGINT] []) in
  spawned (cli_log (cli a env)) = [] /\ invoked (cli_log (cli a env)) = [] /\
  cli_outcome (cli a env) = Raised cannot_pickle.
Proof.
  intros a env.
  destruct (watch_fan_out_breaks_outside_fork a env)
    as (Hs & Hi & _ & Ho & _);
    [reflexivity | reflexivity | simpl; lia | discriminate |].
  auto.
Defined.

(** C10. When [cli] is configured and has no [--check], a worker count of
    1 or less (zero and negative counts included) starts no process, and the
    selected entry point is invoked once, by the caller. *)
Theorem small_count_no_spawn (a : Args) (env : Env) :
  configured a env = true -> check a = false -> (workers a <= 1)%Z ->
  let r := cli a env in
  cli_log r = preamble a ++ [Invoke (entry_point a)] /\
  spawned (cli_log r) = [] /\
  invoked (cli_log r) = [entry_point a] /\
  (cli_outcome r, cli_world r) = run_target (entry_point a) env.
Proof.
  intros Hcf Hc Hk r. subst r.
  assert (Hl : launches a env = true).
  { unfold launches. destruct (Z.leb_spec (workers a) 1); [reflexivity|lia]. }
  rewrite (cli_configured_run _ _ Hcf Hl Hc).
  cbn [cli_log cli_outcome cli_world].
  unfold fan_out. destruct (Z.ltb_spec 1 (workers a)) as [H|_]; [lia|].
  destruct (preamble_quiet a) as (Hs & Hi & _).
  rewrite app_nil_l, spawned_app, invoked_app, Hs, Hi.
  repeat split. destruct (run_target _ env); reflexivity.
Qed.

Lemma small_count_no_spawn_witness :
  let a := mkArgs "app.Settings" (Some true) false None (-2) false None in
  let env := mkEnv (fun _ => true) (fun _ => 0%Z) (fun _ _ => Returned)
                   true [] [] in
  spawned (cli_log (cli a env)) = [].
Proof.
  intros a env.
  apply (small_count_no_spawn a env); [reflexivity | reflexivity | simpl; lia].
Defined.

(** C6. With [--check], whatever the other options are, [cli] starts no
    process, invokes no entry point (so no worker is created) and calls the
    health check at most once; once it is configured (the imports resolve
    and [dictConfig] accepts the configuration) it calls the health check
    exactly once, as its last action, and exits with the integer the check
    returned. *)
Theorem check_short_circuits (a : Args) (env : Env) :
  check a = true ->
  let r := cli a env in
  (spawned (cli_log r) = [] /\ invoked (cli_log r) = [] /\
   cli_world r = None /\ (length (health_checks (cli_log r)) <= 1)%nat) /\
  (configured a env = true ->
     cli_log r = preamble a ++ [CheckHealth (settings_of a)] /\
     health_checks (cli_log r) = [settings_of a] /\
     cli_outcome r = Exited (check_health env (settings_of a))).
Proof.
  intros Hc r. subst r. split.
  - apply cli_check_quiet, Hc.
  - intros Hcf. rewrite (cli_configured_check _ _ Hcf Hc).
    cbn [cli_log cli_outcome]. destruct (preamble_quiet a) as (_ & _ & Hh).
    rewrite health_checks_app, Hh. repeat split.
Qed.

Lemma check_short_circuits_witness :
  let a := mkArgs "app.Settings" (Some true) true (Some "src") 4 true None in
  let env := with_start_method Spawn
               (mkEnv (fun _ => true) (fun _ => 1%Z) (fun _ _ => Returned)
                      false [] []) in
  cli_outcome (cli a env) = Exited 1 /\ spawned (cli_log (cli a env)) = [].
Proof.
  intros a env.
  destruct (check_short_circuits a env eq_refl) as [(Hs & _) Hr].
  split; [apply (Hr eq_refl) | exact Hs].
Defined.

(** C8. In plain-run mode ([cli] configured, no [--check], no watch path)
    the caller invokes [run_worker] once, on the resolved settings and on
    keyword arguments that are empty when [burst] is unset and hold the
    single entry [burst] otherwise; with one worker this blocking run is all
    [cli] does after its preamble, and it ends as the run ends. *)
Theorem plain_run_burst (a : Args) (env : Env) :
  configured a env = true -> check a = false -> truthy (watch a) = false ->
  let r := cli a env in
  invoked (cli_log r) = [RunWorker (settings_of a) (bind_kwargs a)] /\
  (burst a = None -> bind_kwargs a = ∅) /\
  (forall b, burst a = Some b -> bind_kwargs a = {[ "burst" := b ]}) /\
  bind_kwargs a !! "burst" = burst a /\
  cli_outcome r = run_worker env (settings_of a) (bind_kwargs a) /\
  cli_world r = None /\
  (workers a = 1%Z ->
     cli_log r =
       preamble a ++ [Invoke (RunWorker (settings_of a) (bind_kwargs a))] /\
     spawned (cli_log r) = []).
Proof.
  intros Hcf Hc Hw r. subst r.
  assert (Hl : launches a env = true).
  { unfold launches, entry_point. rewrite Hw. simpl. apply orb_true_r. }
  rewrite (cli_configured_run _ _ Hcf Hl Hc). unfold entry_point. rewrite Hw.
  cbn [cli_log cli_outcome cli_world run_target fst snd].
  destruct (preamble_quiet a) as (Hs & Hi & _).
  rewrite fan_out_repeat, !invoked_app, !spawned_app, Hs, Hi, invoked_repeat,
    spawned_repeat.
  unfold bind_kwargs. repeat split.
  - intros ->. reflexivity.
  - intros b ->. reflexivity.
  - destruct (burst a); [apply lookup_singleton_eq | apply lookup_empty].
  - rewrite H. reflexivity.
  - rewrite H. reflexivity.
Qed.

Lemma plain_run_burst_witness :
  let a := mkArgs "app.Settings" None false None 1 false None in
  let env := mkEnv (fun _ => true) (fun _ => 0%Z) (fun _ _ => Returned)
                   false [] [] in
  invoked (cli_log (cli a env)) = [RunWorker (Imported "app.Settings") ∅] /\
  cli_log (cli a env) =
    preamble a ++ [Invoke (RunWorker (Imported "app.Settings") ∅)].
Proof.
  intros a env.
  destruct (plain_run_burst a env eq_refl eq_refl eq_refl)
    as (Hi & _ & _ & _ & _ & _ & H1).
  split; [exact Hi | apply (H1 eq_refl)].
Defined.

(** Without the watcher, [watch_reload] raises at its first statement. *)
Lemma watch_reload_without_watchfiles path settings occs fs :
  watch_reload path settings occs (fresh_world false fs) =
    (Raise watchfiles_missing,
     log (Threw ImportAwatch watchfiles_missing) (fresh_world false fs)).
Proof. reflexivity. Qed.

(** [cli] in health-check or plain-run mode does not look at the watcher. *)
Lemma cli_ignores_watcher a env b :
  mode a <> WatchMode ->
  cli_world (cli a env) = None /\ cli a (with_installed b env) = cli a env.
Proof.
  unfold mode. intros Hm.
  unfold cli, resolve_log_config, import_string, run_target, start_processes.
  cbn [importable with_installed check_health run_worker dict_config_error].
  destruct (importable env (worker_settings a)); [|split; reflexivity].
  destruct (truthy (custom_log_dict a)).
  - destruct (importable env _); [|split; reflexivity].
    destruct (dict_config_error env _); [split; reflexivity|].
    destruct (check a); [split; reflexivity|].
    destruct (truthy (watch a)); [congruence|].
    destruct (1 <? workers a)%Z; [|split; reflexivity].
    rewrite !start_loop_ok by reflexivity. split; reflexivity.
  - destruct (dict_config_error env _); [split; reflexivity|].
    destruct (check a); [split; reflexivity|].
    destruct (truthy (watch a)); [congruence|].
    destruct (1 <? workers a)%Z; [|split; reflexivity].
    rewrite !start_loop_ok by reflexivity. split; reflexivity.
Qed.

(** C9. When watchfiles is missing, [watch_reload] raises the import
    error before it does anything else, and so does [cli] in watch mode once
    it reaches the coroutine (configured, no [--check], a watch path, no
    process start raising); in watch mode without the watcher [cli] ends with
    an error in any case.  In health-check and plain-run mode [cli] does not
    run the coroutine and behaves the same whether the watcher is installed
    or not. *)
Theorem watcher_needed_only_to_watch (a : Args) (env : Env) :
  (forall path settings occs fs,
     let (r, w) := watch_reload path settings occs (fresh_world false fs) in
     r = Raise watchfiles_missing /\
     events w = [Threw ImportAwatch watchfiles_missing] /\ heap w = []) /\
  (configured a env = true -> mode a = WatchMode ->
     (launches a env = true ->
      cli_outcome (cli a (with_installed false env)) =
        Raised watchfiles_missing) /\
     exists e, cli_outcome (cli a (with_installed false env)) = Raised e) /\
  (mode a <> WatchMode ->
     cli_world (cli a env) = None /\
     forall b, cli a (with_installed b env) = cli a env).
Proof.
  split; [|split].
  - intros path settings occs fs.
    rewrite watch_reload_without_watchfiles. repeat split.
  - intros Hcf Hm. unfold mode in Hm.
    destruct (check a) eqn:Hc; [discriminate|].
    destruct (truthy (watch a)) eqn:Hw; [|discriminate].
    assert (Hcf' : configured a (with_installed false env) = true) by exact Hcf.
    assert (Hrun : launches a env = true ->
                   cli_outcome (cli a (with_installed false env)) =
                     Raised watchfiles_missing).
    { intros Hl.
      assert (Hl' : launches a (with_installed false env) = true) by exact Hl.
      rewrite (cli_configured_run _ _ Hcf' Hl' Hc).
      unfold entry_point. rewrite Hw. reflexivity. }
    split; [exact Hrun|].
    destruct (launches a env) eqn:Hl; [eexists; apply Hrun; reflexivity|].
    unfold launches in Hl. apply orb_false_elim in Hl as [Hk Hp].
    apply bool_decide_eq_false_1 in Hp.
    destruct (process_start env (entry_point a)) as [e|] eqn:He; [|congruence].
    exists e.
    destruct (cli_preamble a _ Hcf') as (H1 & H2 & H3 & H4).
    unfold cli. rewrite H1, H2, H3, Hc, Hw.
    destruct (Z.ltb_spec 1 (workers a)) as [Hn|Hn];
      [|destruct (Z.leb_spec (workers a) 1); [discriminate|lia]].
    unfold start_processes.
    destruct (Z.to_nat (workers a - 1)) as [|n] eqn:Hz; [lia|].
    unfold entry_point in He. rewrite Hw in He.
    rewrite (start_loop_raises _ _ n e); [reflexivity|exact He].
  - intros Hm. split; [apply (cli_ignores_watcher a env true Hm)|].
    intros b. apply cli_ignores_watcher, Hm.
Qed.

Lemma watcher_needed_only_to_watch_witness :
  let env := mkEnv (fun _ => true) (fun _ => 0%Z) (fun _ _ => Returned)
                   true [] [] in
  cli_outcome (cli (mkArgs "app.Settings" None false (Some "src") 1 false None)
                   (with_installed false env)) = Raised watchfiles_missing /\
  cli (mkArgs "app.Settings" None false None 1 false None)
      (with_installed false env) =
  cli (mkArgs "app.Settings" None false None 1 false None) env.
Proof.
  intros env. split.
  - apply (proj1 (proj2 (watcher_needed_only_to_watch
             (mkArgs "app.Settings" None false (Some "src") 1 false None) env)));
      reflexivity.
  - apply (proj2 (proj2 (watcher_needed_only_to_watch
             (mkArgs "app.Settings" None false None 1 false None) env))).
    discriminate.
Defined.

(** ** Runs of [watch_reload] in which no call raises *)

Lemma reload_running inst st b tr :
  reload 0 (log (Yielded b)
              (mkWorld inst false
                 [mkWorker st Running (Some worker_on_stop_closure)] [] tr)) =
  (Ok tt, mkWorld inst false
            [mkWorker st Running (Some worker_on_stop_closure)] []
            (tr ++ cycle_obs b)).
Proof. cbv -[app reload_notice]. rewrite <- !app_assoc. reflexivity. Qed.

Lemma loop_batches inst st bs rest tr :
  async_for_awatch (map FilesChanged bs ++ rest) (reload 0)
    (mkWorld inst false [mkWorker st Running (Some worker_on_stop_closure)]
             [] tr) =
  async_for_awatch rest (reload 0)
    (mkWorld inst false [mkWorker st Running (Some worker_on_stop_closure)]
             [] (tr ++ flat_map cycle_obs bs)).
Proof.
  revert tr. induction bs as [|b bs IH]; intros tr.
  - simpl. rewrite app_nil_r. reflexivity.
  - cbn [map app async_for_awatch stop_event flat_map].
    rewrite reload_running, IH, <- app_assoc. reflexivity.
Qed.

Lemma run_from_started path st occs :
  run_watch_reload path st occs true [] =
  try_finally (async_for_awatch occs (reload 0)) (close 0) (started_world st).
Proof. reflexivity. Qed.

Lemma stop_then_close inst st s tr :
  s <> SIGUSR1 ->
  try_finally (async_for_awatch [SignalArrives s] (reload 0)) (close 0)
    (mkWorld inst false [mkWorker st Running (Some worker_on_stop_closure)]
             [] tr) =
  (Ok tt,
   mkWorld inst true [mkWorker st Closed (Some worker_on_stop_closure)] []
     (tr ++ [mkObs (Delivered s) [] true; mkObs (Did (Close 0)) [] true])).
Proof.
  intros Hs. unfold try_finally. cbn -[close].
  unfold deliver. cbn -[close]. unfold worker_handle_sig. cbn -[close].
  unfold worker_on_stop. rewrite (bool_decide_eq_true_2 _ Hs).
  cbv -[app]. rewrite <- app_assoc. reflexivity.
Qed.

Lemma events_cycles bs :
  map obs_event (flat_map cycle_obs bs) =
  flat_map (fun b => Yielded b :: reload_cycle 0) bs.
Proof. induction bs as [|b bs IH]; simpl; [|rewrite IH]; reflexivity. Qed.

Lemma created_cycles bs :
  created (flat_map (fun b => Yielded b :: reload_cycle 0) bs) = [].
Proof. induction bs as [|b bs IH]; simpl; [reflexivity|exact IH]. Qed.

Lemma closed_cycles bs :
  closed (flat_map (fun b => Yielded b :: reload_cycle 0) bs) =
  repeat 0%nat (length bs).
Proof.
  induction bs as [|b bs IH]; [reflexivity|].
  change (closed (flat_map _ (b :: bs))) with
    (0%nat :: closed (flat_map (fun b => Yielded b :: reload_cycle 0) bs)).
  rewrite IH. reflexivity.
Qed.

Lemma started_cycles bs :
  started (flat_map (fun b => Yielded b :: reload_cycle 0) bs) =
  repeat 0%nat (length bs).
Proof.
  induction bs as [|b bs IH]; [reflexivity|].
  change (started (flat_map _ (b :: bs))) with
    (0%nat :: started (flat_map (fun b => Yielded b :: reload_cycle 0) bs)).
  rewrite IH. reflexivity.
Qed.

Lemma repeat_snoc {A} (x : A) n : repeat x n ++ [x] = repeat x (n + 1).
Proof. induction n as [|n IH]; simpl; [|rewrite IH]; reflexivity. Qed.

(** C1, as the code has it. Given [N] batches and then a signal other than
    [SIGUSR1], which sets the stop event, and no call raising,
    [watch_reload] returns after creating one worker only: each batch is
    answered by the notice, [SIGUSR1] to that worker, its close and a new
    run of the same worker, so that this one handle is closed [N + 1] times
    and its run is scheduled [N + 1] times. *)
Theorem one_handle_reloaded (path : string) (st : PyObj)
    (bs : list ChangeBatch) (s : Signals) :
  s <> SIGUSR1 ->
  let (r, w) :=
    run_watch_reload path st (map FilesChanged bs ++ [SignalArrives s])
                     true [] in
  r = Ok tt /\
  events w =
    prologue st ++ flat_map (fun b => Yielded b :: reload_cycle 0) bs
                ++ [Delivered s; Did (Close 0)] /\
  created (events w) = [st] /\
  length (heap w) = 1%nat /\
  closed (events w) = repeat 0%nat (length bs + 1) /\
  started (events w) = repeat 0%nat (length bs + 1).
Proof.
  intros Hs. rewrite run_from_started. unfold started_world, try_finally.
  rewrite loop_batches.
  pose proof (stop_then_close true st s
                (trace (started_world st) ++ flat_map cycle_obs bs) Hs) as H.
  unfold try_finally, started_world in H. cbn [trace] in H. rewrite H. clear H.
  assert (Hev : events
            (mkWorld true true
               [mkWorker st Closed (Some worker_on_stop_closure)] []
               (([mkObs (Did ImportAwatch) [] false;
                  mkObs (Did (CreateWorker st)) [] false;
                  mkObs (Did (SetOnStop 0)) [] false;
                  mkObs (Did (CreateTask 0)) [0%nat] false]
                 ++ flat_map cycle_obs bs)
                ++ [mkObs (Delivered s) [] true; mkObs (Did (Close 0)) [] true]))
          = prologue st ++ flat_map (fun b => Yielded b :: reload_cycle 0) bs
                ++ [Delivered s; Did (Close 0)]).
  { unfold events. cbn [trace].
    rewrite !map_app, events_cycles, <- app_assoc. reflexivity. }
  rewrite Hev. split; [reflexivity|]. split; [reflexivity|].
  unfold created, closed, started. rewrite !omap_app.
  fold (created (flat_map (fun b => Yielded b :: reload_cycle 0) bs)).
  fold (closed (flat_map (fun b => Yielded b :: reload_cycle 0) bs)).
  fold (started (flat_map (fun b => Yielded b :: reload_cycle 0) bs)).
  rewrite created_cycles, closed_cycles, started_cycles.
  repeat split.
  - cbn. apply repeat_snoc.
  - cbn. replace (length bs + 1)%nat with (S (length bs)) by lia.
    rewrite app_nil_r. reflexivity.
Qed.

Lemma one_handle_reloaded_witness :
  let (r, w) :=
    run_watch_reload "src" (Imported "app.Settings")
      (map FilesChanged [[(modified, "src/app.py")]; [(added, "src/jobs.py")]]
         ++ [SignalArrives SIGINT]) true [] in
  r = Ok tt /\ created (events w) = [Imported "app.Settings"] /\
  closed (events w) = [0; 0; 0]%nat.
Proof.
  pose proof (one_handle_reloaded "src" (Imported "app.Settings")
                [[(modified, "src/app.py")]; [(added, "src/jobs.py")]]
                SIGINT) as H.
  destruct (run_watch_reload _ _ _ _ _) as [r w].
  destruct H as (Hr & _ & Hc & _ & Hcl & _); [discriminate|].
  repeat split; assumption.
Defined.

(** C1 as stated fails already for one batch: the run creates one worker,
    not two, both closes are of handle 0, and handle 0 is run again after
    its first close. *)
Lemma fresh_handle_per_reload_fails :
  let (r, w) :=
    run_watch_reload "src" (Imported "app.Settings")
      [FilesChanged [(modified, "src/app.py")]; SignalArrives SIGINT]
      true [] in
  r = Ok tt /\
  created (events w) = [Imported "app.Settings"] /\
  closed (events w) = [0; 0]%nat /\
  rerun_after_close (events w) /\
  ~ fresh_handle_per_reload (events w) 1.
Proof.
  vm_compute run_watch_reload.
  repeat split.
  - exists 0%nat,
      [Did ImportAwatch; Did (CreateWorker (Imported "app.Settings"));
       Did (SetOnStop 0); Did (CreateTask 0);
       Yielded [(modified, "src/app.py")]; Did (Print reload_notice);
       Did (HandleSig 0 SIGUSR1)],
      [], [Delivered SIGINT; Did (Close 0)].
    reflexivity.
  - intros (H & _). vm_compute in H. discriminate.
Qed.

(** ** Invariants: generic lemmas *)

Lemma keeps_bind {A B} I (m : M A) (k : A -> M B) :
  keeps I m -> (forall a, keeps I (k a)) -> keeps I (bind m k).
Proof.
  intros Hm Hk w Hw. unfold bind. specialize (Hm w Hw).
  destruct (m w) as [[a|e|] w']; simpl in *; [apply Hk|..]; assumption.
Qed.

Lemma keeps_try_finally {A} I (body : M A) (fin : M unit) :
  keeps I body -> keeps I fin -> keeps I (try_finally body fin).
Proof.
  intros Hb Hf w Hw. unfold try_finally. specialize (Hb w Hw).
  destruct (body w) as [[a|e|] w']; simpl in *; [| |assumption].
  - specialize (Hf w' Hb). destruct (fin w') as [[?|?|] w'']; assumption.
  - specialize (Hf w' Hb). destruct (fin w') as [[?|?|] w'']; assumption.
Qed.

Lemma keeps_ext {A} allowed I (c : Call) (act : World -> A * World) :
  stable allowed I ->
  allowed (Did c) -> (forall e, allowed (Threw c e)) ->
  (forall w, I w -> I (act w).2) ->
  keeps I (ext c act).
Proof.
  intros [Hf Hl _ _] Hd Ht Hact w Hw. unfold ext.
  destruct (next_fault w) as [e|].
  - simpl. apply Hl; [apply Ht|]. apply Hf, Hw.
  - specialize (Hact _ (Hf (tail (faults w)) w Hw)).
    destruct (act _) as [a w']. simpl in *. apply Hl; assumption.
Qed.

Lemma stable_worker_on_stop allowed I s w :
  stable allowed I -> I w -> I (worker_on_stop s w).
Proof.
  intros [_ _ _ Hs] Hw. unfold worker_on_stop.
  destruct (bool_decide _); [apply Hs|]; assumption.
Qed.

Lemma stable_worker_handle_sig allowed I h s w :
  stable allowed I -> I w -> I (worker_handle_sig h s w).
Proof.
  intros HS Hw. unfold worker_handle_sig.
  pose proof (st_alter _ _ HS stop_running h w Hw) as Hw'.
  destruct (heap w !! h) as [wk|]; [|assumption].
  destruct (w_on_stop wk) as [[]|]; [|assumption].
  simpl. eapply stable_worker_on_stop; eassumption.
Qed.

Lemma stable_deliver allowed I s w :
  stable allowed I -> allowed (Delivered s) -> I w -> I (deliver s w).
Proof.
  intros HS Ha Hw. unfold deliver. apply (st_log _ _ HS); [assumption|].
  generalize (seq 0 (length (heap w))). intros l. revert w Hw.
  induction l as [|h l IH]; intros w Hw; simpl; [assumption|].
  apply IH. eapply stable_worker_handle_sig; eassumption.
Qed.

Lemma keeps_loop allowed I occs (body : M unit) :
  stable allowed I ->
  (forall b, allowed (Yielded b)) -> (forall s, allowed (Delivered s)) ->
  (forall e, allowed (WatcherThrew e)) ->
  keeps I body -> keeps I (async_for_awatch occs body).
Proof.
  intros HS Hy Hd Hw Hb.
  induction occs as [|o occs IH]; intros w Hi; simpl.
  - destruct (stop_event w); assumption.
  - destruct (stop_event w); [assumption|].
    destruct o as [b|s|e].
    + specialize (Hb _ (st_log _ _ HS (Yielded b) w (Hy b) Hi)).
      destruct (body _) as [[?|?|] w']; simpl in *; [apply IH|..]; assumption.
    + apply IH. eapply stable_deliver; eauto.
    + simpl. apply (st_log _ _ HS); auto.
Qed.

(** Every call of the coroutine after the creation of the worker keeps an
    invariant that allows all events. *)
Lemma keeps_set_on_stop I h k :
  stable any_event I -> keeps I (set_on_stop h k).
Proof.
  intros HS. eapply keeps_ext; [exact HS|exact Logic.I|intros; exact Logic.I|].
  intros w Hw. apply (st_alter _ _ HS), Hw.
Qed.

Lemma keeps_create_task I h :
  stable any_event I -> keeps I (create_task_async_run h).
Proof.
  intros HS. eapply keeps_ext; [exact HS|exact Logic.I|intros; exact Logic.I|].
  intros w Hw. apply (st_alter _ _ HS), Hw.
Qed.

Lemma keeps_close I h : stable any_event I -> keeps I (close h).
Proof.
  intros HS. eapply keeps_ext; [exact HS|exact Logic.I|intros; exact Logic.I|].
  intros w Hw. apply (st_alter _ _ HS), Hw.
Qed.

Lemma keeps_print I msg : stable any_event I -> keeps I (print msg).
Proof.
  intros HS. eapply keeps_ext; [exact HS|exact Logic.I|intros; exact Logic.I|].
  intros w Hw. exact Hw.
Qed.

Lemma keeps_handle_sig I h s : stable any_event I -> keeps I (handle_sig h s).
Proof.
  intros HS. eapply keeps_ext; [exact HS|exact Logic.I|intros; exact Logic.I|].
  intros w Hw. eapply stable_worker_handle_sig; eassumption.
Qed.

Lemma keeps_reload I h : stable any_event I -> keeps I (reload h).
Proof.
  intros HS. unfold reload.
  apply keeps_bind; [apply keeps_print, HS|intros _].
  apply keeps_bind; [apply keeps_handle_sig, HS|intros _].
  apply keeps_bind; [apply keeps_close, HS|intros _].
  apply keeps_create_task, HS.
Qed.

Lemma keeps_guarded_loop I h occs :
  stable any_event I -> keeps I (guarded_loop h occs).
Proof.
  intros HS. unfold guarded_loop, try_body.
  apply keeps_try_finally; [|apply keeps_close, HS].
  apply keeps_bind; [apply keeps_set_on_stop, HS|intros _].
  apply keeps_bind; [apply keeps_create_task, HS|intros _].
  eapply keeps_loop; eauto using keeps_reload; intros; exact Logic.I.
Qed.

(** A run of [watch_reload] in a fresh process: the import fails, or the
    creation of the worker fails, or the [try] statement runs. *)
Lemma run_cases path st occs inst fs :
  run_watch_reload path st occs inst fs =
  if inst then
    match next_fault (fresh_world true fs) with
    | Some e =>
        (Raise e,
         mkWorld true false [] (tail fs)
           [mkObs (Did ImportAwatch) [] false;
            mkObs (Threw (CreateWorker st) e) [] false])
    | None => guarded_loop 0 occs (created_world st (tail fs))
    end
  else
    (Raise watchfiles_missing,
     log (Threw ImportAwatch watchfiles_missing) (fresh_world false fs)).
Proof.
  destruct inst; [|reflexivity].
  destruct fs as [|[e|] fs]; reflexivity.
Qed.

(** ** The two invariants *)

Lemma running_from_length i hp :
  (length (running_from i hp) <= length hp)%nat.
Proof.
  revert i. induction hp as [|wk hp IH]; intros i; simpl; [lia|].
  destruct (is_running wk); simpl; specialize (IH (S i)); lia.
Qed.

Lemma one_handle_stable : stable any_event one_handle.
Proof.
  split.
  - intros fs w H. exact H.
  - intros e w _ [Hh Ht]. split; [exact Hh|]. simpl.
    apply Forall_app. split; [exact Ht|].
    constructor; [|constructor]. simpl. unfold running.
    pose proof (running_from_length 0 (heap w)). lia.
  - intros f h w [Hh Ht]. split; [|exact Ht]. simpl.
    rewrite length_alter. exact Hh.
  - intros w H. exact H.
Qed.


(** ** What the calls log *)

Lemma events_log e w : events (log e w) = events w ++ [e].
Proof. unfold events. simpl. rewrite map_app. reflexivity. Qed.

Lemma trace_worker_handle_sig h s w :
  trace (worker_handle_sig h s w) = trace w.
Proof.
  unfold worker_handle_sig. destruct (heap w !! h) as [wk|]; [|reflexivity].
  destruct (w_on_stop wk) as [[]|]; [|reflexivity].
  simpl. unfold worker_on_stop. destruct (bool_decide _); reflexivity.
Qed.

Lemma stop_worker_handle_sig_usr1 h w :
  stop_event (worker_handle_sig h SIGUSR1 w) = stop_event w.
Proof.
  unfold worker_handle_sig. destruct (heap w !! h) as [wk|]; [|reflexivity].
  destruct (w_on_stop wk) as [[]|]; reflexivity.
Qed.

Lemma call_step_ext c (act : World -> unit * World) :
  (forall w, trace (act w).2 = trace w) ->
  (forall w, stop_event (act w).2 = stop_event w) ->
  call_step c (ext c act).
Proof.
  intros Htr Hst w. unfold ext. destruct (next_fault w) as [e|].
  - simpl. split; [reflexivity|]. right. exists e.
    rewrite events_log. split; reflexivity.
  - specialize (Htr (set_faults (tail (faults w)) w)).
    specialize (Hst (set_faults (tail (faults w)) w)).
    destruct (act _) as [[] w']. simpl in *. split; [exact Hst|]. left.
    rewrite events_log. unfold events. rewrite Htr. split; reflexivity.
Qed.

Lemma call_step_print msg : call_step (Print msg) (print msg).
Proof. apply call_step_ext; reflexivity. Qed.

Lemma call_step_close h : call_step (Close h) (close h).
Proof. apply call_step_ext; reflexivity. Qed.

Lemma call_step_create_task h :
  call_step (CreateTask h) (create_task_async_run h).
Proof. apply call_step_ext; reflexivity. Qed.

Lemma call_step_set_on_stop h k : call_step (SetOnStop h) (set_on_stop h k).
Proof. apply call_step_ext; reflexivity. Qed.

Lemma call_step_reload_signal h :
  call_step (HandleSig h SIGUSR1) (handle_sig h SIGUSR1).
Proof.
  apply call_step_ext; intros w; simpl.
  - apply trace_worker_handle_sig.
  - apply stop_worker_handle_sig_usr1.
Qed.

Lemma bind_ok {A B} (m : M A) (k : A -> M B) w a :
  (m w).1 = Ok a -> bind m k w = k a (m w).2.
Proof. unfold bind. destruct (m w) as [r w']. simpl. intros ->. reflexivity. Qed.

Lemma bind_raise {A B} (m : M A) (k : A -> M B) w e :
  (m w).1 = Raise e -> bind m k w = (Raise e, (m w).2).
Proof. unfold bind. destruct (m w) as [r w']. simpl. intros ->. reflexivity. Qed.

Lemma yields_app l1 l2 : yields (l1 ++ l2) = yields l1 ++ yields l2.
Proof. apply omap_app. Qed.

(** One reload: the stop event is as before; the calls logged are the
    complete cycle when the reload returns, and a cycle cut short by the
    call that raised otherwise. *)
Lemma reload_shape h w :
  stop_event (reload h w).2 = stop_event w /\
  exists E, events (reload h w).2 = events w ++ E /\
    (((reload h w).1 = Ok tt /\ E = reload_cycle h) \/
     (exists e, (reload h w).1 = Raise e /\ In E (broken_cycle h e))).
Proof.
  unfold reload.
  destruct (call_step_print reload_notice w) as [S1 [[R1 E1]|(e & R1 & E1)]].
  2:{ rewrite (bind_raise _ _ _ _ R1). simpl. split; [exact S1|].
      eexists. split; [exact E1|]. right. exists e. split; [reflexivity|].
      left. reflexivity. }
  rewrite (bind_ok _ _ _ _ R1). set (w1 := (print reload_notice w).2) in *.
  destruct (call_step_reload_signal h w1) as [S2 [[R2 E2]|(e & R2 & E2)]].
  2:{ rewrite (bind_raise _ _ _ _ R2). simpl. split; [congruence|].
      eexists. split.
      { rewrite E2, E1, <- app_assoc. reflexivity. }
      right. exists e. split; [reflexivity|]. right. left. reflexivity. }
  rewrite (bind_ok _ _ _ _ R2). set (w2 := (handle_sig h SIGUSR1 w1).2) in *.
  destruct (call_step_close h w2) as [S3 [[R3 E3]|(e & R3 & E3)]].
  2:{ rewrite (bind_raise _ _ _ _ R3). simpl. split; [congruence|].
      eexists. split.
      { rewrite E3, E2, E1, <- !app_assoc. reflexivity. }
      right. exists e. split; [reflexivity|]. right. right. left. reflexivity. }
  rewrite (bind_ok _ _ _ _ R3). set (w3 := (close h w2).2) in *.
  destruct (call_step_create_task h w3) as [S4 [[R4 E4]|(e & R4 & E4)]].
  - split; [congruence|]. eexists. split.
    { rewrite E4, E3, E2, E1, <- !app_assoc. reflexivity. }
    left. split; [exact R4|reflexivity].
  - split; [congruence|]. eexists. split.
    { rewrite E4, E3, E2, E1, <- !app_assoc. reflexivity. }
    right. exists e. split; [exact R4|]. right. right. right. left. reflexivity.
Qed.

Lemma yields_broken_cycle h e E : In E (broken_cycle h e) -> yields E = [].
Proof. intros [<-|[<-|[<-|[<-|[]]]]]; reflexivity. Qed.

Lemma reload_spec h w :
  stop_event (reload h w).2 = stop_event w /\
  (reload h w).1 <> Forever /\
  exists E, events (reload h w).2 = events w ++ E /\ yields E = [] /\
            ((reload h w).1 = Ok tt -> E = reload_cycle h).
Proof.
  destruct (reload_shape h w) as (S & E & HE & [[R ->]|(e & R & Hin)]).
  - split; [exact S|]. split; [rewrite R; discriminate|].
    eexists. split; [exact HE|]. split; reflexivity.
  - split; [exact S|]. split; [rewrite R; discriminate|].
    eexists. split; [exact HE|]. split; [eapply yields_broken_cycle, Hin|].
    rewrite R. discriminate.
Qed.

Lemma events_deliver s w : events (deliver s w) = events w ++ [Delivered s].
Proof.
  unfold deliver. rewrite events_log. f_equal. unfold events. f_equal.
  generalize (seq 0 (length (heap w))). intros l. revert w.
  induction l as [|h l IH]; intros w; simpl; [reflexivity|].
  rewrite IH. apply trace_worker_handle_sig.
Qed.

(** ** Splitting a trace at an event *)

Lemma split_left {A} (x : A) (l E pre rest : list A) :
  ~ In x E -> l ++ E = pre ++ x :: rest ->
  exists rest0, l = pre ++ x :: rest0 /\ rest = rest0 ++ E.
Proof.
  intros Hx. revert pre. induction l as [|a l IH]; intros pre Heq.
  - simpl in Heq. exfalso. apply Hx. rewrite Heq. apply in_elt.
  - destruct pre as [|p pre]; simpl in Heq; injection Heq as -> Heq.
    + exists l. split; [reflexivity|]. symmetry. exact Heq.
    + destruct (IH _ Heq) as (rest0 & -> & ->). exists rest0. split; reflexivity.
Qed.

Lemma split_middle {A} (x y : A) (l E pre rest : list A) :
  ~ In y E -> l ++ x :: E = pre ++ y :: rest ->
  (exists rest0, l = pre ++ y :: rest0 /\ rest = rest0 ++ x :: E) \/
  (pre = l /\ y = x /\ rest = E).
Proof.
  intros Hy. revert pre. induction l as [|a l IH]; intros pre Heq.
  - destruct pre as [|p pre]; simpl in Heq; injection Heq as -> Heq.
    + right. auto.
    + exfalso. apply Hy. rewrite Heq. apply in_elt.
  - destruct pre as [|p pre]; simpl in Heq; injection Heq as -> Heq.
    + left. exists l. split; [reflexivity|]. symmetry. exact Heq.
    + destruct (IH _ Heq) as [(rest0 & -> & ->)|(-> & -> & ->)].
      * left. exists rest0. split; reflexivity.
      * right. auto.
Qed.

Lemma no_yield_in b E : yields E = [] -> ~ In (Yielded b) E.
Proof.
  intros Hy Hin. apply in_split in Hin as (l1 & l2 & ->).
  rewrite yields_app in Hy. apply app_eq_nil in Hy as [_ Hy]. discriminate.
Qed.

Lemma yields_reload_cycle h : yields (reload_cycle h) = [].
Proof. reflexivity. Qed.

(** ** The loop *)

(** The loop returns exactly when the stop event is set. *)
Lemma loop_ok_iff_stop h occs w :
  (async_for_awatch occs (reload h) w).1 = Ok tt <->
  stop_event (async_for_awatch occs (reload h) w).2 = true.
Proof.
  revert w. induction occs as [|o occs IH]; intros w; simpl.
  - destruct (stop_event w) eqn:Hs; simpl; [tauto|].
    rewrite Hs. split; discriminate.
  - destruct (stop_event w) eqn:Hs; simpl; [tauto|].
    destruct o as [b|s|e].
    + destruct (reload_spec h (log (Yielded b) w)) as (S & _ & _).
      destruct (reload h (log (Yielded b) w)) as [[[]|e|] w']; simpl in *.
      * apply IH.
      * rewrite S, Hs. split; discriminate.
      * rewrite S, Hs. split; discriminate.
    + apply IH.
    + simpl. rewrite Hs. split; discriminate.
Qed.

(** The batches handed over are the first ones that occurred, in order. *)
Lemma loop_yields h occs w :
  exists k,
    yields (events (async_for_awatch occs (reload h) w).2) =
    yields (events w) ++ take k (batches occs).
Proof.
  revert w. induction occs as [|o occs IH]; intros w; simpl.
  - exists 0%nat. destruct (stop_event w); simpl; rewrite app_nil_r; reflexivity.
  - destruct (stop_event w).
    { exists 0%nat. simpl. rewrite app_nil_r. reflexivity. }
    destruct o as [b|s|e].
    + destruct (reload_spec h (log (Yielded b) w)) as (_ & _ & E & HE & Hy & _).
      rewrite events_log in HE.
      destruct (reload h (log (Yielded b) w)) as [[[]|e|] w'] eqn:Hr;
        simpl in HE.
      * destruct (IH w') as [k Hk]. exists (S k). rewrite Hk, HE.
        rewrite !yields_app, Hy, app_nil_r, <- app_assoc. reflexivity.
      * exists 1%nat. cbn [snd]. rewrite HE, !yields_app, Hy, app_nil_r.
        change (batches (FilesChanged b :: occs)) with (b :: batches occs).
        cbn [firstn]. rewrite take_0. reflexivity.
      * exists 1%nat. cbn [snd]. rewrite HE, !yields_app, Hy, app_nil_r.
        change (batches (FilesChanged b :: occs)) with (b :: batches occs).
        cbn [firstn]. rewrite take_0. reflexivity.
    + destruct (IH (deliver s w)) as [k Hk]. exists k.
      rewrite Hk, events_deliver, yields_app. simpl. rewrite app_nil_r.
      reflexivity.
    + exists 0%nat. simpl. rewrite events_log, yields_app. reflexivity.
Qed.

Lemma reloads_complete_app h evs E :
  reloads_complete h evs -> yields E = [] -> reloads_complete h (evs ++ E).
Proof.
  intros Hc Hy pre b rest Heq.
  apply split_left in Heq as (rest0 & -> & ->); [|apply no_yield_in, Hy].
  destruct (Hc _ _ _ eq_refl) as [rest' ->]. exists (rest' ++ E).
  rewrite app_assoc. reflexivity.
Qed.

Lemma reloads_in_turn_app h evs E :
  reloads_in_turn h evs -> yields E = [] -> reloads_in_turn h (evs ++ E).
Proof.
  intros Hc Hy pre b rest Heq Hne.
  apply split_left in Heq as (rest0 & -> & ->); [|apply no_yield_in, Hy].
  rewrite yields_app, Hy, app_nil_r in Hne.
  destruct (Hc _ _ _ eq_refl Hne) as [rest' ->]. exists (rest' ++ E).
  rewrite app_assoc. reflexivity.
Qed.

Lemma reloads_complete_in_turn h evs :
  reloads_complete h evs -> reloads_in_turn h evs.
Proof. intros Hc pre b rest Heq _. eapply Hc, Heq. Qed.

Lemma no_yields_complete h evs : yields evs = [] -> reloads_complete h evs.
Proof.
  intros Hy pre b rest ->. rewrite yields_app in Hy.
  apply app_eq_nil in Hy as [_ Hy]. discriminate.
Qed.

(** Each batch is answered by a complete reload before the next one is
    handed over. *)
Lemma loop_reloads h occs w :
  reloads_complete h (events w) ->
  reloads_in_turn h (events (async_for_awatch occs (reload h) w).2).
Proof.
  revert w. induction occs as [|o occs IH]; intros w Hc; simpl.
  - destruct (stop_event w); apply reloads_complete_in_turn, Hc.
  - destruct (stop_event w); [apply reloads_complete_in_turn, Hc|].
    destruct o as [b|s|e].
    + destruct (reload_spec h (log (Yielded b) w)) as (_ & _ & E & HE & Hy & Hok).
      rewrite events_log, <- app_assoc in HE.
      destruct (reload h (log (Yielded b) w)) as [[[]|e|] w'] eqn:Hr;
        simpl in HE, Hok.
      * apply IH. rewrite HE, (Hok eq_refl). intros pre b0 rest Heq.
        apply split_middle in Heq as [(rest0 & Hl & ->)|(-> & Hb & ->)];
          [| |apply no_yield_in; reflexivity].
        -- destruct (Hc _ _ _ Hl) as [rest' ->].
           eexists. rewrite <- app_assoc. reflexivity.
        -- exists []. rewrite app_nil_r. reflexivity.
      * simpl. rewrite HE. intros pre b0 rest Heq Hne.
        apply split_middle in Heq as [(rest0 & Hl & ->)|(-> & Hb & ->)];
          [| |apply no_yield_in, Hy].
        -- destruct (Hc _ _ _ Hl) as [rest' ->].
           eexists. rewrite <- app_assoc. reflexivity.
        -- contradiction.
      * simpl. rewrite HE. intros pre b0 rest Heq Hne.
        apply split_middle in Heq as [(rest0 & Hl & ->)|(-> & Hb & ->)];
          [| |apply no_yield_in, Hy].
        -- destruct (Hc _ _ _ Hl) as [rest' ->].
           eexists. rewrite <- app_assoc. reflexivity.
        -- contradiction.
    + apply IH. rewrite events_deliver.
      apply reloads_complete_app; [exact Hc|reflexivity].
    + simpl. rewrite events_log. apply reloads_complete_in_turn.
      apply reloads_complete_app; [exact Hc|reflexivity].
Qed.

(** ** The [try] statement *)

(** The [finally] clause: when the body returns or raises, [close] is the
    last call made. *)
Lemma finally_close {A} (body : M A) h w :
  let r := try_finally body (close h) w in
  ((body w).1 = Forever /\ r = (Forever, (body w).2)) \/
  ((body w).1 <> Forever /\
   stop_event r.2 = stop_event (body w).2 /\
   ((r.1 = (body w).1 /\ events r.2 = events (body w).2 ++ [Did (Close h)]) \/
    (exists e, r.1 = Raise e /\
               events r.2 = events (body w).2 ++ [Threw (Close h) e]))).
Proof.
  unfold try_finally.
  destruct (call_step_close h (body w).2) as [S [[R E]|(e & R & E)]];
    destruct (body w) as [[a|e0|] w']; simpl in *;
    try (left; split; reflexivity);
    right; (split; [discriminate|]);
    destruct (close h w') as [[[]|?|] w'']; simpl in *; try discriminate;
    (split; [exact S|]); eauto.
  - right. exists e. injection R as ->. split; [reflexivity|exact E].
  - right. exists e. injection R as ->. split; [reflexivity|exact E].
Qed.

(** The start of the [try] block: installing the hook raises, or scheduling
    the first run raises, or the loop starts. *)
Lemma start_cases h occs w :
  let body := try_body h occs in
  (exists e, (body w).1 = Raise e /\ stop_event (body w).2 = stop_event w /\
             events (body w).2 = events w ++ [Threw (SetOnStop h) e]) \/
  (exists e, (body w).1 = Raise e /\ stop_event (body w).2 = stop_event w /\
             events (body w).2 =
               events w ++ [Did (SetOnStop h); Threw (CreateTask h) e]) \/
  (exists w3, body w = async_for_awatch occs (reload h) w3 /\
              stop_event w3 = stop_event w /\
              events w3 = events w ++ [Did (SetOnStop h); Did (CreateTask h)]).
Proof.
  intros body. subst body. unfold try_body.
  destruct (call_step_set_on_stop h worker_on_stop_closure w)
    as [S1 [[R1 E1]|(e & R1 & E1)]].
  2:{ left. exists e. rewrite (bind_raise _ _ _ _ R1). simpl. auto. }
  rewrite (bind_ok _ _ _ _ R1).
  set (w2 := (set_on_stop h worker_on_stop_closure w).2) in *.
  destruct (call_step_create_task h w2) as [S2 [[R2 E2]|(e & R2 & E2)]].
  - right. right. exists (create_task_async_run h w2).2.
    rewrite (bind_ok _ _ _ _ R2). split; [reflexivity|].
    split; [congruence|]. rewrite E2, E1, <- app_assoc. reflexivity.
  - right. left. exists e. rewrite (bind_raise _ _ _ _ R2). simpl.
    split; [reflexivity|]. split; [congruence|].
    rewrite E2, E1, <- app_assoc. reflexivity.
Qed.

Lemma body_reloads h occs w :
  yields (events w) = [] ->
  reloads_in_turn h (events (try_body h occs w).2).
Proof.
  intros Hy.
  destruct (start_cases h occs w)
    as [(e & _ & _ & E)|[(e & _ & _ & E)|(w3 & -> & _ & E)]].
  - rewrite E. apply reloads_complete_in_turn, no_yields_complete.
    rewrite yields_app, Hy. reflexivity.
  - rewrite E. apply reloads_complete_in_turn, no_yields_complete.
    rewrite yields_app, Hy. reflexivity.
  - apply loop_reloads, no_yields_complete.
    rewrite E, yields_app, Hy. reflexivity.
Qed.

Lemma body_yields h occs w :
  yields (events w) = [] ->
  exists k, yields (events (try_body h occs w).2) = take k (batches occs).
Proof.
  intros Hy.
  destruct (start_cases h occs w)
    as [(e & _ & _ & E)|[(e & _ & _ & E)|(w3 & -> & _ & E)]].
  - exists 0%nat. rewrite E, yields_app, Hy, take_0. reflexivity.
  - exists 0%nat. rewrite E, yields_app, Hy, take_0. reflexivity.
  - destruct (loop_yields h occs w3) as [k Hk]. exists k.
    rewrite Hk, E, yields_app, Hy. reflexivity.
Qed.

Lemma body_ok_stop h occs w :
  (try_body h occs w).1 = Ok tt -> stop_event (try_body h occs w).2 = true.
Proof.
  destruct (start_cases h occs w)
    as [(e & R & _)|[(e & R & _)|(w3 & -> & _)]].
  - rewrite R. discriminate.
  - rewrite R. discriminate.
  - apply loop_ok_iff_stop.
Qed.

(** ** Runs are scheduled after a close *)







(** ** The whole run *)

Lemma guarded_events h occs w :
  events (guarded_loop h occs w).2 = events (try_body h occs w).2 \/
  exists e, events (guarded_loop h occs w).2 =
              events (try_body h occs w).2 ++ [e] /\
            (e = Did (Close h) \/ exists x, e = Threw (Close h) x).
Proof.
  unfold guarded_loop.
  destruct (finally_close (try_body h occs) h w)
    as [[_ ->]|(_ & _ & [[_ E]|(x & _ & E)])].
  - left. reflexivity.
  - right. eexists. split; [exact E|]. left. reflexivity.
  - right. eexists. split; [exact E|]. right. exists x. reflexivity.
Qed.

Lemma created_world_one_handle st fs : one_handle (created_world st fs).
Proof. split; simpl; [lia|]. repeat constructor. Qed.


(** C5. In every run of [watch_reload] (whatever occurs and whichever
    calls raise) no observation shows more than one running handle; the
    batches handed to the loop are the first batches that occurred, in their
    order of arrival; and every batch that is followed by another one is
    directly followed by the complete reload: notice, [SIGUSR1], close
    returned, run scheduled. *)
Theorem single_running_handle (path : string) (st : PyObj)
    (occs : list Occurrence) (inst : bool) (fs : list (option Exn)) :
  let w := (run_watch_reload path st occs inst fs).2 in
  Forall (fun o => (length (obs_running o) <= 1)%nat) (trace w) /\
  (exists k, yields (events w) = take k (batches occs)) /\
  (forall pre b rest,
     events w = pre ++ Yielded b :: rest -> yields rest <> [] ->
     exists rest', rest = reload_cycle 0 ++ rest').
Proof.
  rewrite run_cases. destruct inst.
  2:{ simpl. split; [repeat constructor|]. split.
      - exists 0%nat. rewrite take_0. reflexivity.
      - intros [|? [|? ?]] b rest Heq; discriminate. }
  destruct (next_fault (fresh_world true fs)) as [e|].
  { simpl. split; [repeat constructor|]. split.
    - exists 0%nat. rewrite take_0. reflexivity.
    - intros [|? [|? [|? ?]]] b rest Heq; discriminate. }
  set (w0 := created_world st (tail fs)).
  assert (Hy0 : yields (events w0) = []) by reflexivity.
  split; [|split].
  - apply (keeps_guarded_loop one_handle 0 occs one_handle_stable w0).
    apply created_world_one_handle.
  - destruct (body_yields 0 occs w0 Hy0) as [k Hk]. exists k.
    destruct (guarded_events 0 occs w0) as [->|(e & -> & He)]; [exact Hk|].
    rewrite yields_app, Hk.
    destruct He as [->|[x ->]]; simpl; apply app_nil_r.
  - pose proof (body_reloads 0 occs w0 Hy0) as Hb.
    destruct (guarded_events 0 occs w0) as [->|(e & -> & He)]; [exact Hb|].
    apply reloads_in_turn_app; [exact Hb|].
    destruct He as [->|[x ->]]; reflexivity.
Qed.


(** ** The close at return *)












Lemma single_running_handle_witness :
  let w := (run_watch_reload "src" (Imported "app.Settings")
              [FilesChanged [(modified, "src/app.py")];
               FilesChanged [(added, "src/jobs.py")];
               SignalArrives SIGINT] true []).2 in
  Forall (fun o => (length (obs_running o) <= 1)%nat) (trace w) /\
  yields (events w) = [[(modified, "src/app.py")]; [(added, "src/jobs.py")]].
Proof.
  pose proof (single_running_handle "src" (Imported "app.Settings")
                [FilesChanged [(modified, "src/app.py")];
                 FilesChanged [(added, "src/jobs.py")];
                 SignalArrives SIGINT] true []) as (H & _).
  split; [exact H|]. reflexivity.
Defined.

(** * Further properties of [cli] *)

Lemma dict_configs_app l1 l2 :
  dict_configs (l1 ++ l2) = dict_configs l1 ++ dict_configs l2.
Proof. apply omap_app. Qed.

Lemma start_loop_events env t n :
  exists k, (start_loop env t n).1 = repeat (ProcessStart t) k.
Proof.
  induction n as [|n [k IH]]; simpl; [exists 0%nat; reflexivity|].
  destruct (process_start env t); [exists 0%nat; reflexivity|].
  destruct (start_loop env t n) as [l f]. simpl in *. exists (S k).
  rewrite IH. reflexivity.
Qed.

Lemma repeat_start_actions t k :
  forallb is_mode_action (repeat (ProcessStart t) k) = true /\
  dict_configs (repeat (ProcessStart t) k) = [].
Proof. induction k as [|k [IH1 IH2]]; simpl; auto. Qed.

(** After line 50 [cli] only acts on the health check, on processes and on
    the entry point. *)
Lemma cli_log_after_config a env :
  configured a env = true ->
  exists post,
    cli_log (cli a env) = preamble a ++ post /\
    forallb is_mode_action post = true /\ dict_configs post = [].
Proof.
  intros Hcf. destruct (cli_preamble a env Hcf) as (H1 & H2 & H3 & H4).
  assert (Hstarts : forall t,
    exists k,
      (if (1 <? workers a)%Z then start_processes env (workers a - 1) t
       else ([], None)).1 = repeat (ProcessStart t) k).
  { intros t. destruct (1 <? workers a)%Z; [apply start_loop_events|].
    exists 0%nat. reflexivity. }
  unfold cli. rewrite H1, H2, H3, H4.
  destruct (check a).
  { eexists. cbn [cli_log]. rewrite <- !app_assoc. split; [reflexivity|].
    split; reflexivity. }
  destruct (truthy (watch a)).
  - destruct (Hstarts (AsyncioRun (WatchReload (default "" (watch a))
                                               (settings_of a)))) as [k Hk].
    destruct (if (1 <? workers a)%Z then _ else _) as [l3 failed].
    simpl in Hk. subst l3. destruct (repeat_start_actions
      (AsyncioRun (WatchReload (default "" (watch a)) (settings_of a))) k)
      as [Ha Hd].
    destruct failed as [e|]; [|destruct (run_target _ env) as [o w]];
      eexists; cbn [cli_log]; rewrite <- !app_assoc;
      (split; [reflexivity|]);
      rewrite ?forallb_app, ?dict_configs_app, Ha, Hd; split; reflexivity.
  - destruct (Hstarts (RunWorker (settings_of a) (bind_kwargs a))) as [k Hk].
    destruct (if (1 <? workers a)%Z then _ else _) as [l3 failed].
    simpl in Hk. subst l3. destruct (repeat_start_actions
      (RunWorker (settings_of a) (bind_kwargs a)) k) as [Ha Hd].
    destruct failed as [e|]; [|destruct (run_target _ env) as [o w]];
      eexists; cbn [cli_log]; rewrite <- !app_assoc;
      (split; [reflexivity|]);
      rewrite ?forallb_app, ?dict_configs_app, Ha, Hd; split; reflexivity.
Qed.

(** X1. When one of the two imports of lines 45-47 fails, [cli] raises
    the import's error right there: logging is not configured, the health
    check is not called, no process is started and no entry point is
    invoked; the last thing logged is the import that failed. *)
Theorem import_failure_is_fatal (a : Args) (env : Env) :
  resolves a env = false ->
  let r := cli a env in
  exists locator,
    importable env locator = false /\
    cli_outcome r = Raised (import_failed locator) /\
    last (cli_log r) = Some (ImportString locator) /\
    dict_configs (cli_log r) = [] /\ health_checks (cli_log r) = [] /\
    spawned (cli_log r) = [] /\ invoked (cli_log r) = [] /\
    cli_world r = None.
Proof.
  unfold resolves, cli, resolve_log_config, import_string. intros H.
  destruct (importable env (worker_settings a)) eqn:H1; simpl in H.
  - destruct (truthy (custom_log_dict a)); [|discriminate].
    rewrite H. exists (default "" (custom_log_dict a)). simpl. auto 10.
  - exists (worker_settings a). simpl. auto 10.
Qed.

Lemma import_failure_is_fatal_witness :
  let a := mkArgs "app.Settings" None false (Some "src") 3 false
                  (Some "app.LOGGING") in
  let env := mkEnv (fun s => String.eqb s "app.Settings") (fun _ => 0%Z)
                   (fun _ _ => Returned) true [] [] in
  cli_outcome (cli a env) = Raised (import_failed "app.LOGGING") /\
  spawned (cli_log (cli a env)) = [].
Proof.
  intros a env.
  destruct (import_failure_is_fatal a env eq_refl)
    as (loc & _ & Ho & Hl & _ & _ & Hs & _).
  split; [|exact Hs]. rewrite Ho. f_equal.
  vm_compute in Hl. injection Hl as <-. reflexivity.
Defined.

(** X2. When the imports resolve, [cli] hands [dictConfig] the imported
    dictionary when [--custom-log-dict] is given (then [verbose] plays no
    part) and [default_log_config(verbose)] otherwise.  When [dictConfig]
    raises, [cli] ends with that error and neither the health check, nor a
    process start, nor the entry point follows.  When it returns, logging
    has been configured exactly once, after the imports and before every
    such action. *)
Theorem logging_configured_first (a : Args) (env : Env) :
  resolves a env = true ->
  let r := cli a env in
  (forall e, dict_config_error env (chosen_log_config a) = Some e ->
     cli_outcome r = Raised e /\ dict_configs (cli_log r) = [] /\
     existsb is_mode_action (cli_log r) = false /\ cli_world r = None) /\
  (dict_config_error env (chosen_log_config a) = None ->
     exists pre post,
       cli_log r = pre ++ DictConfig (chosen_log_config a) :: post /\
       existsb is_mode_action pre = false /\
       dict_configs pre = [] /\ dict_configs post = [] /\
       forallb is_mode_action post = true) /\
  (truthy (custom_log_dict a) = true ->
   forall v, chosen_log_config (with_verbose v a) = chosen_log_config a).
Proof.
  intros Hres r. subst r. split; [|split].
  - intros e He. unfold resolves in Hres. apply andb_prop in Hres as [H1 H2].
    unfold cli, resolve_log_config, import_string, chosen_log_config in *.
    rewrite H1. destruct (truthy (custom_log_dict a)).
    + rewrite H2, He. repeat split.
    + rewrite He. repeat split.
  - intros Hd.
    assert (Hcf : configured a env = true).
    { unfold configured. rewrite Hres, Hd. reflexivity. }
    destruct (cli_log_after_config a env Hcf) as (post & Hl & Ha & Hp).
    destruct (cli_preamble a env Hcf) as (_ & _ & _ & H4).
    exists ([SysPathAppend; ImportString (worker_settings a)] ++
            (if truthy (custom_log_dict a)
             then [ImportString (default "" (custom_log_dict a))] else [])),
           post.
    split; [rewrite Hl, H4, <- !app_assoc; reflexivity|].
    destruct (truthy (custom_log_dict a)); auto.
  - intros Hc v. unfold chosen_log_config. simpl. rewrite Hc. reflexivity.
Qed.

Lemma logging_configured_first_witness :
  let a := mkArgs "app.Settings" None false None 2 true (Some "app.LOGGING") in
  let env := mkEnv (fun _ => true) (fun _ => 0%Z) (fun _ _ => Returned)
                   true [] [] in
  dict_configs (cli_log (cli a env)) = [Imported "app.LOGGING"].
Proof.
  intros a env.
  destruct (logging_configured_first a env eq_refl) as (_ & H & _).
  destruct (H eq_refl) as (pre & post & Hl & _ & Hpre & Hpost & _).
  rewrite Hl, dict_configs_app, Hpre. simpl. fold (dict_configs post).
  rewrite Hpost. reflexivity.
Defined.

(** X3. Outside plain-run mode the [--burst/--no-burst] option has no
    effect at all: with [--check] or with a watch path, the run of [cli] is
    the same for every value of [burst] (the keyword arguments of line 55 are
    passed to [run_worker] only). *)
Theorem burst_only_in_plain_run (a : Args) (env : Env) (b : option bool) :
  mode a <> PlainRun -> cli (with_burst b a) env = cli a env.
Proof.
  unfold mode. intros Hm.
  unfold cli, resolve_log_config, import_string, with_burst.
  cbn [worker_settings custom_log_dict verbose check watch workers burst].
  destruct (importable env (worker_settings a)); [|reflexivity].
  destruct (truthy (custom_log_dict a)).
  - destruct (importable env _); [|reflexivity].
    destruct (check a); [reflexivity|].
    destruct (truthy (watch a)); [reflexivity|congruence].
  - destruct (check a); [reflexivity|].
    destruct (truthy (watch a)); [reflexivity|congruence].
Qed.

Lemma burst_only_in_plain_run_witness :
  let a := mkArgs "app.Settings" None false (Some "src") 1 false None in
  let env := mkEnv (fun _ => true) (fun _ => 0%Z) (fun _ _ => Returned)
                   true [SignalArrives SIGINT] [] in
  cli (with_burst (Some true) a) env = cli a env.
Proof.
  intros a env. apply (burst_only_in_plain_run a env (Some true)). discriminate.
Defined.

(** * Further properties of [watch_reload] *)

(** X4. Failures before the loop. When [create_worker] raises, line 82,
    the error propagates and nothing is closed: the call is outside the [try]
    statement.  When the installation of the hook or the scheduling of the
    first run raises, lines 84-85, the loop is not entered whatever occurs,
    the worker is closed by the [finally] clause, and the error propagates
    unless that close raises, whose error then replaces it. *)
Theorem startup_failures (path : string) (st : PyObj)
    (occs : list Occurrence) (fs : list (option Exn)) (e : Exn) :
  (let (r, w) := run_watch_reload path st occs true (Some e :: fs) in
   r = Raise e /\
   events w = [Did ImportAwatch; Threw (CreateWorker st) e] /\ heap w = []) /\
  (let (r, w) := run_watch_reload path st occs true (None :: Some e :: fs) in
   r = Raise (close_after fs e).2 /\
   events w = [Did ImportAwatch; Did (CreateWorker st);
               Threw (SetOnStop 0) e; (close_after fs e).1]) /\
  (let (r, w) :=
     run_watch_reload path st occs true (None :: None :: Some e :: fs) in
   r = Raise (close_after fs e).2 /\
   events w = [Did ImportAwatch; Did (CreateWorker st); Did (SetOnStop 0);
               Threw (CreateTask 0) e; (close_after fs e).1]).
Proof.
  split; [|split].
  - vm_compute. repeat split.
  - destruct fs as [|[e'|] fs]; vm_compute; repeat split.
  - destruct fs as [|[e'|] fs]; vm_compute; repeat split.
Qed.







(** ** The calls of the coroutine *)

Lemma after_creation_stable st : stable own_event (after_creation st).
Proof.
  split.
  - intros fs w H. exact H.
  - intros e w He (rest & Hr & Hf). exists (rest ++ [e]). split.
    + rewrite events_log, Hr, <- app_assoc. reflexivity.
    + apply Forall_app. split; [exact Hf|]. repeat constructor. exact He.
  - intros f h w H. exact H.
  - intros w H. exact H.
Qed.

Lemma keeps_own_call I (c : Call) (act : World -> unit * World) :
  stable own_event I -> own_call c ->
  (forall w, I w -> I (act w).2) -> keeps I (ext c act).
Proof.
  intros HS Hc Hact. eapply keeps_ext; [exact HS|exact Hc| |exact Hact].
  intros e. exact Hc.
Qed.

Lemma keeps_own_guarded_loop I occs :
  stable own_event I -> keeps I (guarded_loop 0 occs).
Proof.
  intros HS. unfold guarded_loop, try_body, reload.
  assert (Hclose : keeps I (close 0)).
  { apply keeps_own_call; [exact HS|reflexivity|].
    intros w Hw. apply (st_alter _ _ HS), Hw. }
  assert (Htask : keeps I (create_task_async_run 0)).
  { apply keeps_own_call; [exact HS|reflexivity|].
    intros w Hw. apply (st_alter _ _ HS), Hw. }
  apply keeps_try_finally; [|exact Hclose].
  apply keeps_bind; [|intros _].
  { apply keeps_own_call; [exact HS|reflexivity|].
    intros w Hw. apply (st_alter _ _ HS), Hw. }
  apply keeps_bind; [exact Htask|intros _].
  eapply keeps_loop; [exact HS|intros; exact Logic.I..|].
  apply keeps_bind; [|intros _].
  { apply keeps_own_call; [exact HS|reflexivity|]. intros w Hw. exact Hw. }
  apply keeps_bind; [|intros _].
  { apply keeps_own_call; [exact HS|split; reflexivity|].
    intros w Hw. eapply stable_worker_handle_sig; eassumption. }
  apply keeps_bind; [exact Hclose|intros _]. exact Htask.
Qed.

Lemma own_events_create_nothing rest :
  Forall own_event rest -> created rest = [].
Proof.
  induction 1 as [|e rest He _ IH]; [reflexivity|].
  destruct e as [[]|[]| | |]; simpl in *; try contradiction; exact IH.
Qed.

(** X6. In every run of [watch_reload], whatever occurs and whichever
    calls raise, at most one worker is created, from the settings given; and
    after the import and that creation every call the coroutine makes is the
    reload notice or a call on that one worker, with [SIGUSR1] as the only
    signal it ever sends to it. *)
Theorem only_own_worker (path : string) (st : PyObj)
    (occs : list Occurrence) (inst : bool) (fs : list (option Exn)) :
  let w := (run_watch_reload path st occs inst fs).2 in
  (created (events w) = [] \/ created (events w) = [st]) /\
  (length (heap w) <= 1)%nat /\
  Forall own_event (drop 2 (events w)).
Proof.
  rewrite run_cases. destruct inst.
  2:{ simpl. split; [left; reflexivity|]. split; [lia|constructor]. }
  destruct (next_fault (fresh_world true fs)) as [e|].
  { simpl. split; [left; reflexivity|]. split; [lia|constructor]. }
  set (w0 := created_world st (tail fs)).
  assert (H0 : after_creation st w0).
  { exists []. split; [reflexivity|constructor]. }
  destruct (keeps_own_guarded_loop _ occs (after_creation_stable st) w0 H0)
    as (rest & Hr & Hf).
  split; [|split].
  - right. rewrite Hr. unfold created. rewrite omap_app.
    fold (created rest). rewrite (own_events_create_nothing _ Hf). reflexivity.
  - apply (keeps_guarded_loop one_handle 0 occs one_handle_stable w0).
    apply created_world_one_handle.
  - rewrite Hr. exact Hf.
Qed.

(** ** What sets the stop event *)

Lemma stop_worker_handle_sig h s w :
  stop_event (worker_handle_sig h s w) = true ->
  stop_event w = true \/ s <> SIGUSR1.
Proof.
  unfold worker_handle_sig. destruct (heap w !! h) as [wk|]; [|auto].
  destruct (w_on_stop wk) as [[]|]; [|auto]. simpl. unfold worker_on_stop.
  destruct (bool_decide_reflect (s <> SIGUSR1)); auto.
Qed.

Lemma stop_deliver s w :
  stop_event (deliver s w) = true -> stop_event w = true \/ s <> SIGUSR1.
Proof.
  unfold deliver. simpl. generalize (seq 0 (length (heap w))). intros l.
  revert w. induction l as [|h l IH]; intros w; simpl; [auto|].
  intros H. destruct (IH _ H) as [H'|H']; [|auto].
  apply stop_worker_handle_sig in H'. exact H'.
Qed.

Lemma stopped_by_signal_grows w w' E :
  stopped_by_signal w -> stop_event w' = stop_event w ->
  events w' = events w ++ E -> stopped_by_signal w'.
Proof.
  intros H S HE Hs. rewrite S in Hs. destruct (H Hs) as (s & Hne & Hin).
  exists s. split; [exact Hne|]. rewrite HE. apply in_or_app. auto.
Qed.

Lemma loop_stopped_by_signal h occs w :
  stopped_by_signal w ->
  stopped_by_signal (async_for_awatch occs (reload h) w).2.
Proof.
  revert w. induction occs as [|o occs IH]; intros w H; simpl.
  - destruct (stop_event w); exact H.
  - destruct (stop_event w); [exact H|].
    destruct o as [b|s|e].
    + destruct (reload_shape h (log (Yielded b) w)) as (S & E & HE & _).
      assert (H' : stopped_by_signal (reload h (log (Yielded b) w)).2).
      { eapply stopped_by_signal_grows; [exact H|exact S|].
        rewrite HE, events_log, <- app_assoc. reflexivity. }
      destruct (reload h (log (Yielded b) w)) as [[[]|e|] w']; simpl in *;
        [apply IH|..]; exact H'.
    + apply IH. intros Hs. rewrite events_deliver.
      apply stop_deliver in Hs as [Hs|Hs].
      * destruct (H Hs) as (s' & Hne & Hin). exists s'.
        split; [exact Hne|]. apply in_or_app. auto.
      * exists s. split; [exact Hs|]. apply in_or_app. right. left. reflexivity.
    + simpl. eapply stopped_by_signal_grows; [exact H|reflexivity|].
      apply events_log.
Qed.

Lemma delivered_from_occs h occs w s :
  In (Delivered s) (events (async_for_awatch occs (reload h) w).2) ->
  In (Delivered s) (events w) \/ In (SignalArrives s) occs.
Proof.
  revert w. induction occs as [|o occs IH]; intros w; simpl.
  - destruct (stop_event w); auto.
  - destruct (stop_event w); [auto|].
    destruct o as [b|s'|e].
    + destruct (reload_shape h (log (Yielded b) w)) as (_ & E & HE & Hsh).
      rewrite events_log in HE.
      assert (HnE : ~ In (Delivered s) E).
      { destruct Hsh as [[_ ->]|(e & _ & [<-|[<-|[<-|[<-|[]]]]])];
          simpl; intuition discriminate. }
      assert (Hw : In (Delivered s) (events (reload h (log (Yielded b) w)).2) ->
                   In (Delivered s) (events w)).
      { rewrite HE. intros Hin. apply in_app_or in Hin as [Hin|Hin];
          [|contradiction].
        apply in_app_or in Hin as [Hin|[Hin|[]]]; [exact Hin|discriminate]. }
      destruct (reload h (log (Yielded b) w)) as [[[]|e|] w']; simpl in *.
      * intros Hin. destruct (IH _ Hin) as [H'|H']; auto.
      * auto.
      * auto.
    + intros Hin. destruct (IH _ Hin) as [H'|H']; [|auto].
      rewrite events_deliver in H'. apply in_app_or in H' as [H'|[H'|[]]];
        [auto|]. injection H' as ->. auto.
    + simpl. rewrite events_log. intros Hin.
      apply in_app_or in Hin as [Hin|[Hin|[]]]; [auto|discriminate].
Qed.

Lemma guarded_ok_stop h occs w :
  (guarded_loop h occs w).1 = Ok tt -> stop_event (guarded_loop h occs w).2 = true.
Proof.
  unfold guarded_loop. intros Hr.
  destruct (finally_close (try_body h occs) h w)
    as [[_ Hf]|(_ & S & [[R _]|(x & R & _)])].
  - rewrite Hf in Hr. discriminate.
  - rewrite S. apply body_ok_stop. rewrite <- R. exact Hr.
  - rewrite R in Hr. discriminate.
Qed.

(** X7. A reload is never taken for a shutdown: in every run of
    [watch_reload], the stop event is set at the end only if a signal other
    than [SIGUSR1] arrived while the coroutine was waiting in [awatch] and
    was delivered; so the coroutine returns normally only in that case. *)
Theorem stop_needs_signal (path : string) (st : PyObj)
    (occs : list Occurrence) (inst : bool) (fs : list (option Exn)) :
  let (r, w) := run_watch_reload path st occs inst fs in
  (stop_event w = true ->
     exists s, s <> SIGUSR1 /\ In (Delivered s) (events w) /\
               In (SignalArrives s) occs) /\
  (r = Ok tt -> stop_event w = true).
Proof.
  rewrite run_cases. destruct inst; [|split; discriminate].
  destruct (next_fault (fresh_world true fs)) as [e|]; [split; discriminate|].
  set (w0 := created_world st (tail fs)).
  pose proof (guarded_ok_stop 0 occs w0) as Hok.
  assert (H0 : stopped_by_signal w0) by (intros H; discriminate H).
  assert (Hb : stopped_by_signal (try_body 0 occs w0).2 /\
               forall s, In (Delivered s) (events (try_body 0 occs w0).2) ->
                         In (SignalArrives s) occs).
  { destruct (start_cases 0 occs w0)
      as [(e & _ & S & E)|[(e & _ & S & E)|(w3 & -> & S & E)]].
    - split; [eapply stopped_by_signal_grows; eauto|].
      intros s. rewrite E. simpl. intuition discriminate.
    - split; [eapply stopped_by_signal_grows; eauto|].
      intros s. rewrite E. simpl. intuition discriminate.
    - split.
      + apply loop_stopped_by_signal. eapply stopped_by_signal_grows; eauto.
      + intros s Hin. apply delivered_from_occs in Hin as [Hin|Hin]; [|exact Hin].
        rewrite E in Hin. simpl in Hin. intuition discriminate. }
  destruct Hb as [Hb Hd].
  pose proof (finally_close (try_body 0 occs) 0 w0) as Hf.
  fold (guarded_loop 0 occs) in Hf.
  destruct (guarded_loop 0 occs w0) as [r w] eqn:Hg. simpl in Hf, Hok.
  split; [|exact Hok]. intros Hs.
  assert (Hw : exists s, s <> SIGUSR1 /\
                         In (Delivered s) (events (try_body 0 occs w0).2) /\
                         In (Delivered s) (events w)).
  { destruct Hf as [[_ Hf]|(_ & S & [[_ E]|(x & _ & E)])].
    - injection Hf as _ ->. destruct (Hb Hs) as (s & Hne & Hin). eauto.
    - rewrite S in Hs. destruct (Hb Hs) as (s & Hne & Hin).
      exists s. rewrite E. split; [exact Hne|]. split; [exact Hin|].
      apply in_or_app. auto.
    - rewrite S in Hs. destruct (Hb Hs) as (s & Hne & Hin).
      exists s. rewrite E. split; [exact Hne|]. split; [exact Hin|].
      apply in_or_app. auto. }
  destruct Hw as (s & Hne & Hin & Hin'). exists s. auto.
Qed.

Lemma stop_needs_signal_witness :
  let (r, w) :=
    run_watch_reload "src" (Imported "app.Settings")
      [FilesChanged [(modified, "src/app.py")]; SignalArrives SIGUSR1;
       SignalArrives SIGTERM] true [] in
  stop_event w = true /\
  exists s, s <> SIGUSR1 /\ In (Delivered s) (events w).
Proof.
  pose proof (stop_needs_signal "src" (Imported "app.Settings")
                [FilesChanged [(modified, "src/app.py")];
                 SignalArrives SIGUSR1; SignalArrives SIGTERM] true []) as H.
  destruct (run_watch_reload _ _ _ _ _) as [r w] eqn:Hrun.
  assert (Hs : stop_event w = true).
  { vm_compute in Hrun. injection Hrun as _ <-. reflexivity. }
  split; [exact Hs|]. destruct H as [H _].
  destruct (H Hs) as (s & Hne & Hin & _). exists s. auto.
Defined.

(** ** The contents of a batch play no part *)

Lemma forget_log e w :
  log (forget_event e) (forget_world w) = forget_world (log e w).
Proof. unfold log, forget_world. simpl. rewrite map_app. reflexivity. Qed.

Lemma forget_log_call e w :
  forget_event e = e -> log e (forget_world w) = forget_world (log e w).
Proof. intros H. rewrite <- forget_log, H. reflexivity. Qed.

Lemma forgets_bind {A B} (m' m : M A) (k' k : A -> M B) :
  forgets m' m -> (forall a, forgets (k' a) (k a)) ->
  forgets (bind m' k') (bind m k).
Proof.
  intros Hm Hk w. unfold bind. rewrite Hm.
  destruct (m w) as [[a|e|] w']; simpl; [apply Hk|reflexivity..].
Qed.

Lemma forgets_try_finally {A} (body' body : M A) (fin' fin : M unit) :
  forgets body' body -> forgets fin' fin ->
  forgets (try_finally body' fin') (try_finally body fin).
Proof.
  intros Hb Hf w. unfold try_finally. rewrite Hb.
  destruct (body w) as [[a|e|] w']; simpl; [| |reflexivity].
  - rewrite Hf. destruct (fin w') as [[?|?|] w'']; reflexivity.
  - rewrite Hf. destruct (fin w') as [[?|?|] w'']; reflexivity.
Qed.

Lemma commutes_bind {A B} (m : M A) (k : A -> M B) :
  commutes m -> (forall a, commutes (k a)) -> commutes (bind m k).
Proof. apply forgets_bind. Qed.

Lemma commutes_ext {A} (c : Call) (act : World -> A * World) :
  (forall w, act (forget_world w) = ((act w).1, forget_world (act w).2)) ->
  commutes (ext c act).
Proof.
  intros Hact w. unfold ext.
  change (next_fault (forget_world w)) with (next_fault w).
  change (set_faults (tail (faults (forget_world w))) (forget_world w))
    with (forget_world (set_faults (tail (faults w)) w)).
  destruct (next_fault w) as [e|].
  - simpl. rewrite forget_log_call; reflexivity.
  - rewrite Hact. destruct (act _) as [a w']. simpl.
    rewrite forget_log_call; reflexivity.
Qed.

Lemma forget_worker_handle_sig h s w :
  worker_handle_sig h s (forget_world w) =
  forget_world (worker_handle_sig h s w).
Proof.
  unfold worker_handle_sig. simpl.
  destruct (heap w !! h) as [wk|]; [|reflexivity].
  destruct (w_on_stop wk) as [[]|]; [|reflexivity].
  simpl. unfold worker_on_stop. destruct (bool_decide _); reflexivity.
Qed.

Lemma forget_deliver s w : deliver s (forget_world w) = forget_world (deliver s w).
Proof.
  unfold deliver. rewrite <- (forget_log_call (Delivered s)) by reflexivity.
  f_equal. simpl.
  generalize (seq 0 (length (heap w))). intros l. revert w.
  induction l as [|h l IH]; intros w; simpl; [reflexivity|].
  rewrite forget_worker_handle_sig. apply IH.
Qed.

Lemma commutes_reload h : commutes (reload h).
Proof.
  unfold reload.
  apply commutes_bind; [apply commutes_ext; reflexivity|intros _].
  apply commutes_bind; [|intros _].
  { apply commutes_ext. intros w. simpl. rewrite forget_worker_handle_sig.
    reflexivity. }
  apply commutes_bind; [apply commutes_ext; reflexivity|intros _].
  apply commutes_ext; reflexivity.
Qed.

Lemma forget_loop occs (body : M unit) w :
  commutes body ->
  async_for_awatch (map forget_occ occs) body (forget_world w) =
  ((async_for_awatch occs body w).1,
   forget_world (async_for_awatch occs body w).2).
Proof.
  intros Hb. revert w. induction occs as [|o occs IH]; intros w; simpl.
  - destruct (stop_event w); reflexivity.
  - destruct (stop_event w); [reflexivity|].
    destruct o as [b|s|e]; simpl.
    + rewrite (forget_log (Yielded b)), Hb.
      destruct (body (log (Yielded b) w)) as [[[]|e|] w']; simpl;
        [apply IH|reflexivity..].
    + rewrite forget_deliver. apply IH.
    + rewrite forget_log_call; reflexivity.
Qed.

Lemma forget_run path st occs inst fs :
  run_watch_reload path st (map forget_occ occs) inst fs =
  ((run_watch_reload path st occs inst fs).1,
   forget_world (run_watch_reload path st occs inst fs).2).
Proof.
  unfold run_watch_reload, watch_reload.
  change (fresh_world inst fs) with (forget_world (fresh_world inst fs)) at 1.
  apply forgets_bind; [|intros _].
  { intros w. unfold import_awatch. simpl.
    destruct (watchfiles_installed w); simpl;
      rewrite forget_log_call; reflexivity. }
  apply forgets_bind; [intros w; reflexivity|intros _].
  apply forgets_bind; [apply commutes_ext; reflexivity|intros worker].
  apply forgets_try_finally; [|apply commutes_ext; reflexivity].
  apply forgets_bind; [apply commutes_ext; reflexivity|intros _].
  apply forgets_bind; [apply commutes_ext; reflexivity|intros _].
  intros w. apply forget_loop, commutes_reload.
Qed.

Lemma events_forget w : events (forget_world w) = map forget_event (events w).
Proof. unfold events. simpl. rewrite !map_map. reflexivity. Qed.

(** X9. What a batch holds plays no part in [watch_reload]: two runs in
    which the same things occur in the same order, but for the contents of
    the batches (an empty batch included), end the same way, with the same
    calls in the same order, the same workers and the same stop event. *)
Theorem batch_contents_ignored (path : string) (st : PyObj)
    (occs occs' : list Occurrence) (inst : bool) (fs : list (option Exn)) :
  map forget_occ occs = map forget_occ occs' ->
  let (r, w) := run_watch_reload path st occs inst fs in
  let (r', w') := run_watch_reload path st occs' inst fs in
  r = r' /\
  map forget_event (events w) = map forget_event (events w') /\
  heap w = heap w' /\ stop_event w = stop_event w' /\
  map obs_running (trace w) = map obs_running (trace w').
Proof.
  intros Heq.
  pose proof (forget_run path st occs inst fs) as H1.
  pose proof (forget_run path st occs' inst fs) as H2.
  rewrite Heq in H1. rewrite H1 in H2. clear H1.
  destruct (run_watch_reload path st occs inst fs) as [r w].
  destruct (run_watch_reload path st occs' inst fs) as [r' w'].
  cbn [fst snd] in H2.
  pose proof (f_equal fst H2) as Hr. pose proof (f_equal snd H2) as Hw.
  cbn [fst snd] in Hr, Hw. clear H2.
  split; [exact Hr|].
  rewrite <- !events_forget, Hw. split; [reflexivity|].
  assert (Hh : heap (forget_world w) = heap (forget_world w')) by (rewrite Hw; reflexivity).
  assert (Hs : stop_event (forget_world w) = stop_event (forget_world w'))
    by (rewrite Hw; reflexivity).
  assert (Ht : map obs_running (trace (forget_world w)) =
               map obs_running (trace (forget_world w')))
    by (rewrite Hw; reflexivity).
  simpl in Hh, Hs, Ht. rewrite !map_map in Ht. simpl in Ht.
  repeat split; assumption.
Qed.

Lemma batch_contents_ignored_witness :
  let (r, w) :=
    run_watch_reload "src" (Imported "app.Settings")
      [FilesChanged [(modified, "src/app.py")]; SignalArrives SIGINT] true [] in
  let (r', w') :=
    run_watch_reload "src" (Imported "app.Settings")
      [FilesChanged []; SignalArrives SIGINT] true [] in
  r = r' /\ heap w = heap w'.
Proof.
  pose proof (batch_contents_ignored "src" (Imported "app.Settings")
                [FilesChanged [(modified, "src/app.py")]; SignalArrives SIGINT]
                [FilesChanged []; SignalArrives SIGINT] true [] eq_refl) as H.
  destruct (run_watch_reload _ _ [FilesChanged [(modified, _)]; _] _ _) as [r w].
  destruct (run_watch_reload _ _ _ _ _) as [r' w'].
  destruct H as (Hr & _ & Hh & _). split; assumption.
Defined.

(** ** Errors propagate *)

Lemma last_error_app l E :
  last_error (l ++ E) =
  match last_error E with
  | Some x => Some x
  | None => last_error l
  end.
Proof.
  induction l as [|e l IH]; simpl.
  - destruct (last_error E); reflexivity.
  - rewrite IH. destruct (last_error E); reflexivity.
Qed.

Lemma last_error_broken h e E : In E (broken_cycle h e) -> last_error E = Some e.
Proof. intros [<-|[<-|[<-|[<-|[]]]]]; reflexivity. Qed.

Lemma loop_error_matches h occs w :
  last_error (events w) = None ->
  error_matches (async_for_awatch occs (reload h) w).1
                (events (async_for_awatch occs (reload h) w).2).
Proof.
  revert w. induction occs as [|o occs IH]; intros w Hw; simpl.
  - destruct (stop_event w); exact Hw.
  - destruct (stop_event w); [exact Hw|].
    destruct o as [b|s|e].
    + destruct (reload_shape h (log (Yielded b) w)) as (_ & E & HE & Hsh).
      destruct (reload_spec h (log (Yielded b) w)) as (_ & Hnf & _).
      rewrite events_log in HE.
      destruct (reload h (log (Yielded b) w)) as [[[]|e|] w']; simpl in *.
      * apply IH. destruct Hsh as [[_ ->]|(e & ? & _)]; [|discriminate].
        rewrite HE, !last_error_app, Hw. reflexivity.
      * destruct Hsh as [[? _]|(e' & He & Hin)]; [discriminate|].
        injection He as <-.
        rewrite HE, last_error_app, (last_error_broken _ _ _ Hin). reflexivity.
      * contradiction.
    + apply IH. rewrite events_deliver, last_error_app, Hw. reflexivity.
    + simpl. rewrite events_log, last_error_app. reflexivity.
Qed.

Lemma body_error_matches h occs w :
  last_error (events w) = None ->
  error_matches (try_body h occs w).1 (events (try_body h occs w).2).
Proof.
  intros Hw.
  destruct (start_cases h occs w)
    as [(e & R & _ & E)|[(e & R & _ & E)|(w3 & -> & _ & E)]].
  - rewrite R, E. simpl. rewrite last_error_app. reflexivity.
  - rewrite R, E. simpl. rewrite last_error_app. reflexivity.
  - apply loop_error_matches. rewrite E, last_error_app, Hw. reflexivity.
Qed.

(** X11. The errors of the calls [watch_reload] makes itself propagate:
    in every run the coroutine raises if and only if one of its own calls
    ([create_worker], the hook's installation, [create_task], the notice,
    [handle_sig], [close]) or the watcher raised, and the error it raises is
    the one of the last of them that raised (the close of the [finally]
    clause when that raised, else the call that ended the loop or the
    startup).  What the scheduled run of the worker raises inside its task
    is not awaited by [watch_reload] and is no part of this statement. *)
Theorem errors_propagate (path : string) (st : PyObj)
    (occs : list Occurrence) (inst : bool) (fs : list (option Exn)) :
  let (r, w) := run_watch_reload path st occs inst fs in
  match r with
  | Raise x => last_error (events w) = Some x
  | _ => last_error (events w) = None
  end.
Proof.
  rewrite run_cases. destruct inst; [|reflexivity].
  destruct (next_fault (fresh_world true fs)) as [e|]; [reflexivity|].
  set (w0 := created_world st (tail fs)).
  pose proof (body_error_matches 0 occs w0 eq_refl) as Hb.
  pose proof (finally_close (try_body 0 occs) 0 w0) as Hf.
  fold (guarded_loop 0 occs) in Hf.
  destruct (guarded_loop 0 occs w0) as [r w] eqn:Hg. simpl in Hf.
  change (error_matches r (events w)).
  destruct Hf as [[HF Hf]|(_ & _ & [[R E]|(x & R & E)])].
  - injection Hf as -> ->. rewrite HF in Hb. exact Hb.
  - rewrite R, E. unfold error_matches in *. rewrite last_error_app.
    destruct (try_body 0 occs w0) as [[[]|e|] wb]; exact Hb.
  - rewrite R, E. simpl. rewrite last_error_app. reflexivity.
Qed.

(** * The two functions together *)

(** X12. The watcher is looked for only inside the coroutine: in watch mode
    with watchfiles missing, under the [fork] start method ([cli]
    configured, no [--check]), [cli] still starts its [workers - 1]
    processes before its own run raises the import error, and every started
    process that lacks watchfiles ends with the same error, having created
    no worker. *)
Theorem missing_watcher_found_late (a : Args) (env : Env) :
  configured a env = true -> mode a = WatchMode -> start_method env = Fork ->
  let r := cli a (with_installed false env) in
  spawned (cli_log r) = repeat (entry_point a) (Z.to_nat (workers a - 1)) /\
  cli_outcome r = Raised watchfiles_missing /\
  forall env', installed env' = false ->
    exists w, run_target (entry_point a) env' =
                (Raised watchfiles_missing, Some w) /\
              heap w = [] /\
              events w = [Threw ImportAwatch watchfiles_missing].
Proof.
  intros Hcf Hm Hsm r. subst r. unfold mode in Hm.
  destruct (check a) eqn:Hc; [discriminate|].
  destruct (truthy (watch a)) eqn:Hw; [|discriminate].
  assert (Hcf' : configured a (with_installed false env) = true) by exact Hcf.
  assert (Hl : launches a (with_installed false env) = true).
  { unfold launches, entry_point, process_start. rewrite Hw.
    cbn [start_method with_installed]. rewrite Hsm. apply orb_true_r. }
  rewrite (cli_configured_run _ _ Hcf' Hl Hc). cbn [cli_log cli_outcome].
  destruct (preamble_quiet a) as (Hs & _).
  rewrite fan_out_repeat, !spawned_app, Hs, spawned_repeat.
  unfold entry_point. rewrite Hw. split; [|split].
  - simpl. apply app_nil_r.
  - reflexivity.
  - intros env' Hi. unfold run_target. rewrite Hi.
    eexists. split; [reflexivity|]. split; reflexivity.
Qed.

Lemma missing_watcher_found_late_witness :
  let a := mkArgs "app.Settings" None false (Some "src") 4 false None in
  let env := mkEnv (fun _ => true) (fun _ => 0%Z) (fun _ _ => Returned)
                   true [] [] in
  length (spawned (cli_log (cli a (with_installed false env)))) = 3%nat /\
  cli_outcome (cli a (with_installed false env)) = Raised watchfiles_missing.
Proof.
  intros a env.
  destruct (missing_watcher_found_late a env eq_refl eq_refl eq_refl)
    as (Hs & Ho & _).
  split; [rewrite Hs; reflexivity|exact Ho].
Defined.
